(** * cogbase: the retrieval-augmented-generation core (server/rag.ts, server/db.ts)

    A shallow embedding of the chunker, the placeholder embedder, the cosine
    similarity, the indexer and the retriever of [server/rag.ts], together with
    the storage helpers of [server/db.ts] they call.

    - JavaScript numbers are IEEE 754 binary64 values: they are modelled by
      Rocq's primitive floats, whose operations are the same correctly rounded
      binary64 operations.  Numbers that the code only uses as indices, sizes
      or database integers are modelled by [Z].
    - JavaScript strings are sequences of UTF-16 code units: [list N].
    - [async] functions over the database are modelled in a state-and-exception
      monad over a [World]: the three tables, whether [getDb()] yields a
      handle, and the outcome of the queries still to come. *)

From Stdlib Require Import String Ascii.
From Stdlib Require Import ZArith NArith Bool Lia Floats List Permutation.
Import ListNotations.
Open Scope list_scope.

Set Implicit Arguments.

(* ================================================================= *)
(** ** JavaScript values *)

Module Js.

(** A UTF-16 code unit, [0 .. 65535]. *)
Definition codeUnit := N.

(** A JavaScript string. *)
Definition jsString := list codeUnit.

(** An ASCII literal as a JavaScript string. *)
Definition str (s : string) : jsString :=
  map N_of_ascii (list_ascii_of_string s).

(** [s.slice(start, end)] of [String.prototype] and [Array.prototype] at
    integer arguments: a negative index counts from the end, both indices
    are clamped to [0 .. length], and the result is empty when the clamped
    start is not before the clamped end. *)
Definition slice (A : Type) (s : list A) (start end_ : Z) : list A :=
  let len := Z.of_nat (length s) in
  let from := if (start <? 0)%Z then Z.max (len + start) 0 else Z.min start len in
  let to := if (end_ <? 0)%Z then Z.max (len + end_) 0 else Z.min end_ len in
  firstn (Z.to_nat (to - from)) (skipn (Z.to_nat from) s).

(** [parts.join(sep)]. *)
Fixpoint join (sep : jsString) (parts : list jsString) : jsString :=
  match parts with
  | [] => []
  | [p] => p
  | p :: rest => p ++ sep ++ join sep rest
  end.

(** [x || d] at a nullable database integer: [null] and [0] are falsy. *)
Definition orDefault (x : option Z) (d : Z) : Z :=
  match x with
  | None => d
  | Some v => if (v =? 0)%Z then d else v
  end.

End Js.

Import Js.

(* ================================================================= *)
(** ** The chunker: [chunkText] (server/rag.ts, lines 123-144) *)

Module Chunker.

Section Loop.

Variables (text : jsString) (chunkSize overlap : Z).

Let len : Z := Z.of_nat (length text).

(** The [while (start < text.length)] loop, with the number of iterations
    bounded by [fuel]; [None] means that the fuel ran out before the loop
    was left.  [chunks] is the array the loop pushes to. *)
Fixpoint chunkLoop (fuel : nat) (start : Z) (chunks : list jsString)
  : option (list jsString) :=
  match fuel with
  | O => None
  | S fuel' =>
      if (start <? len)%Z then
        let end_ := Z.min (start + chunkSize) len in
        let chunk := slice text start end_ in
        let chunks := chunks ++ [chunk] in
        let nextStart := (end_ - overlap)%Z in
        if ((nextStart <=? start) || (end_ >=? len))%Z then Some chunks
        else chunkLoop fuel' nextStart chunks
      else Some chunks
  end.

End Loop.

(** Iterations granted to the loop of [chunkText]: one more than the number
    of code units; [chunkLoop_enough_fuel] shows that no run needs more. *)
Definition fuelFor (text : jsString) : nat := S (length text).

(** [chunkText(text, chunkSize, overlap)]; the [None] branch is the loop
    running out of fuel, which [chunkLoop_enough_fuel] excludes. *)
Definition chunkText (text : jsString) (chunkSize overlap : Z) : list jsString :=
  match chunkLoop text chunkSize overlap (fuelFor text) 0 [] with
  | Some chunks => chunks
  | None => []
  end.

(** The defaults of the signature: [chunkSize = 512], [overlap = 50]. *)
Definition defaultChunkSize : Z := 512.
Definition defaultOverlap : Z := 50.

(** The text read back from the chunks: the first chunk whole, every later
    chunk without its leading [overlap] code units. *)
Definition removeOverlap (overlap : Z) (chunks : list jsString) : jsString :=
  match chunks with
  | [] => []
  | c :: rest => c ++ concat (map (skipn (Z.to_nat overlap)) rest)
  end.

End Chunker.

Import Chunker.

(* ================================================================= *)
(** ** Sorting *)

Module Sorting.

Section Insertion.

Variable A : Type.

(** [after x y]: the order asks for [x] to be placed after [y]. *)
Variable after : A -> A -> bool.

(** [x], which stood before every element of [l], moves right past the
    elements it has to come after and stops at the first other one. *)
Fixpoint insertBy (x : A) (l : list A) : list A :=
  match l with
  | [] => [x]
  | y :: l' => if after x y then y :: insertBy x l' else x :: l
  end.

(** A stable sort: elements that the order does not separate keep their
    relative position.  [Array.prototype.sort] is stable (ECMAScript 2019),
    and a stable sort by a consistent order has one result only. *)
Definition stableSort (l : list A) : list A := fold_right insertBy [] l.

End Insertion.

End Sorting.

Import Sorting.

(* ================================================================= *)
(** ** The placeholder embedder and the similarity (server/rag.ts, lines 11-59) *)

Module Embedder.

Open Scope float_scope.

(** [cosineSimilarity(a, b)]: the loop keeps three running sums. *)
Definition cosineSimilarity (a b : list float) : float :=
  if negb (length a =? length b)%nat then 0
  else
    let '(dotProduct, normA, normB) :=
      fold_left
        (fun '(dotProduct, normA, normB) '(x, y) =>
           (dotProduct + x * y, normA + x * x, normB + y * y))
        (combine a b) (0, 0, 0) in
    dotProduct / (sqrt normA * sqrt normB).

(** [embedding[index] += 1]; [index] is a remainder modulo 128 and the array
    has 128 entries, so the write is always in range. *)
Fixpoint increment (index : nat) (embedding : list float) : list float :=
  match embedding, index with
  | [], _ => []
  | val :: rest, O => (val + 1) :: rest
  | val :: rest, S index' => val :: increment index' rest
  end.

(** The loop over the code units of the lowercased text. *)
Definition frequencies (normalized : jsString) : list float :=
  fold_left
    (fun embedding charCode => increment (N.to_nat (charCode mod 128)) embedding)
    normalized (repeat 0 128).

(** The last two lines: the Euclidean norm, and the division by it. *)
Definition normalize (embedding : list float) : list float :=
  let magnitude := sqrt (fold_left (fun sum val => sum + val * val) embedding 0) in
  map (fun val => if 0 <? magnitude then val / magnitude else 0) embedding.

Section Runtime.

(** [String.prototype.toLowerCase] of the JavaScript runtime. *)
Variable toLowerCase : jsString -> jsString.

(** [createSimpleEmbedding(text)] (the console warning is not modelled). *)
Definition createSimpleEmbedding (text : jsString) : list float :=
  let normalized := toLowerCase text in
  normalize (frequencies normalized).

End Runtime.

(** [toLowerCase] on the Basic Latin block: [A-Z] to [a-z], every other code
    unit of that block unchanged.  The runtime's function agrees with it on
    strings of code units below 128. *)
Definition asciiToLowerCase (s : jsString) : jsString :=
  map (fun c => if ((65 <=? c) && (c <=? 90))%N then (c + 32)%N else c) s.

End Embedder.

Import Embedder.

(* ================================================================= *)
(** ** The tables (drizzle/schema.ts) *)

(** The columns the modelled functions read or write; identifiers and counts
    are MySQL [int]s, timestamps are seconds. *)

Inductive DocumentStatus := pending | processing | completed | failed.

Module TrainingDocument.
Record t := make {
  id : Z;
  agentId : Z;
  userId : Z;
  fileName : jsString;
  fileType : jsString;
  content : jsString;
  status : DocumentStatus;
  chunkCount : option Z;
  createdAt : Z;
  updatedAt : Z
}.

(** [Partial<InsertTrainingDocument>] as [rag.ts] builds it: the fields an
    update may set. *)
Record partial := makePartial {
  setStatus : option DocumentStatus;
  setChunkCount : option Z
}.
End TrainingDocument.

Module RagConfiguration.
Record t := make {
  id : Z;
  agentId : Z;
  enabled : Z;
  chunkSize : option Z;
  chunkOverlap : option Z;
  topK : option Z;
  (** [decimal(3,2)]: the driver hands it over as a string such as ["0.70"];
      kept here as the number of hundredths it denotes. *)
  similarityThreshold : option Z;
  embeddingModel : option jsString
}.
End RagConfiguration.

Module VectorEmbedding.
Record t := make {
  id : Z;
  documentId : Z;
  agentId : Z;
  chunkIndex : Z;
  content : jsString;
  (** The JSON column: [None] stands for [null] and for any value that is
      not an array. *)
  embedding : option (list float);
  metadata : list (string * Z);
  createdAt : Z
}.

(** [InsertVectorEmbedding] as [rag.ts] builds it. *)
Record insert := makeInsert {
  newDocumentId : Z;
  newAgentId : Z;
  newChunkIndex : Z;
  newContent : jsString;
  newEmbedding : list float;
  newMetadata : list (string * Z)
}.
End VectorEmbedding.

(* ================================================================= *)
(** ** The world of the storage functions and the monad of [async] code *)

Module Async.

(** What a rejected promise carries. *)
Inductive Error :=
| DatabaseNotAvailable        (* [new Error("Database not available")] *)
| QueryFailed (code : nat)    (* the driver rejected a query *)
| TypeError.                  (* a property read on [undefined] *)

Record World := makeWorld {
  (** [getDb()] yields a handle: [DATABASE_URL] is set. *)
  available : bool;
  trainingDocuments : list TrainingDocument.t;
  ragConfigurations : list RagConfiguration.t;
  vectorEmbeddings : list VectorEmbedding.t;
  (** The next [AUTO_INCREMENT] value (one counter serves all tables). *)
  nextId : Z;
  (** The server's clock, for [defaultNow()] and [onUpdateNow()]. *)
  now : Z;
  (** The fate of the queries still to be sent, in order: [Some e] rejects
      the query with [e] and leaves the tables alone, [None] lets it run;
      once the list is used up every query runs. *)
  rejections : list (option Error)
}.

Inductive Outcome (A : Type) :=
| Return (a : A)
| Throw (e : Error).

Arguments Throw {A} e.

Definition Async (A : Type) : Type := World -> Outcome A * World.

Definition ret (A : Type) (a : A) : Async A := fun w => (Return a, w).

Definition throw (A : Type) (e : Error) : Async A := fun w => (Throw e, w).

Definition bind (A B : Type) (m : Async A) (k : A -> Async B) : Async B :=
  fun w =>
    match m w with
    | (Return a, w') => k a w'
    | (Throw e, w') => (Throw e, w')
    end.

(** [try { body } catch (error) { handler }]. *)
Definition tryCatch (A : Type) (body : Async A) (handler : Error -> Async A)
  : Async A :=
  fun w =>
    match body w with
    | (Return a, w') => (Return a, w')
    | (Throw e, w') => handler e w'
    end.

(** The world once a query has been sent: its fate is taken off the list. *)
Definition sent (w : World) : World :=
  makeWorld (available w) (trainingDocuments w) (ragConfigurations w)
    (vectorEmbeddings w) (nextId w) (now w) (tl (rejections w)).

(** One awaited query of the driver: rejected, or run on the tables. *)
Definition query (A : Type) (run : World -> A * World) : Async A :=
  fun w =>
    match hd None (rejections w) with
    | Some e => (Throw e, sent w)
    | None => let (a, w') := run (sent w) in (Return a, w')
    end.

(** [config.field] where [config] may be [undefined]. *)
Definition defined (A : Type) (x : option A) : Async A :=
  match x with
  | Some a => ret a
  | None => throw A TypeError
  end.

End Async.

Import Async.

Declare Scope async_scope.
Delimit Scope async_scope with async.
Notation "x <- m ;; k" := (bind m (fun x => k))
  (at level 100, m at next level, right associativity) : async_scope.
Notation "m ;;; k" := (bind m (fun _ => k))
  (at level 100, right associativity) : async_scope.
Open Scope async_scope.

(* ================================================================= *)
(** ** The storage helpers (server/db.ts, lines 24-34 and 543-657) *)

Module Db.

Import Async.

Definition withTrainingDocuments (w : World) (rows : list TrainingDocument.t)
  : World :=
  makeWorld (available w) rows (ragConfigurations w) (vectorEmbeddings w)
    (nextId w) (now w) (rejections w).

Definition withVectorEmbeddings (w : World) (rows : list VectorEmbedding.t)
  : World :=
  makeWorld (available w) (trainingDocuments w) (ragConfigurations w) rows
    (nextId w) (now w) (rejections w).

(** [getDb()]: the handle, or [null]. *)
Definition getDb : Async bool := fun w => (Return (available w), w).

(** [db.update(trainingDocuments).set(data).where(eq(id, ...))] on one row. *)
Definition applyPartial (data : TrainingDocument.partial) (at_ : Z)
    (d : TrainingDocument.t) : TrainingDocument.t :=
  TrainingDocument.make
    (TrainingDocument.id d) (TrainingDocument.agentId d)
    (TrainingDocument.userId d) (TrainingDocument.fileName d)
    (TrainingDocument.fileType d) (TrainingDocument.content d)
    (match TrainingDocument.setStatus data with
     | Some s => s
     | None => TrainingDocument.status d
     end)
    (match TrainingDocument.setChunkCount data with
     | Some n => Some n
     | None => TrainingDocument.chunkCount d
     end)
    (TrainingDocument.createdAt d) at_.

Definition updateTrainingDocument (id : Z) (data : TrainingDocument.partial)
  : Async (option TrainingDocument.t) :=
  db <- getDb ;;
  if negb db then ret None
  else
    query (fun w =>
      (tt, withTrainingDocuments w
             (map (fun d => if (TrainingDocument.id d =? id)%Z
                            then applyPartial data (now w) d else d)
                  (trainingDocuments w)))) ;;;
    updated <- query (fun w =>
      (filter (fun d => (TrainingDocument.id d =? id)%Z) (trainingDocuments w), w)) ;;
    ret (hd_error updated).

Definition deleteTrainingDocument (id userId : Z) : Async unit :=
  db <- getDb ;;
  if negb db then ret tt
  else
    query (fun w =>
      (tt, withTrainingDocuments w
             (filter (fun d => negb ((TrainingDocument.id d =? id)%Z
                                     && (TrainingDocument.userId d =? userId)%Z))
                     (trainingDocuments w)))).

(** The row [getOrCreateRagConfig] inserts for an agent without one. *)
Definition defaultRagConfig (id agentId : Z) : RagConfiguration.t :=
  RagConfiguration.make id agentId 1 (Some 512%Z) (Some 50%Z) (Some 3%Z)
    (Some 70%Z) (Some (str "text-embedding-ada-002")).

Definition getOrCreateRagConfig (agentId : Z) : Async (option RagConfiguration.t) :=
  db <- getDb ;;
  if negb db then throw _ DatabaseNotAvailable
  else
    existing <- query (fun w =>
      (filter (fun c => (RagConfiguration.agentId c =? agentId)%Z)
              (ragConfigurations w), w)) ;;
    match existing with
    | c :: _ => ret (Some c)
    | [] =>
        insertedId <- query (fun w =>
          (nextId w,
           makeWorld (available w) (trainingDocuments w)
             (ragConfigurations w ++ [defaultRagConfig (nextId w) agentId])
             (vectorEmbeddings w) (nextId w + 1)%Z (now w) (rejections w))) ;;
        inserted <- query (fun w =>
          (filter (fun c => (RagConfiguration.id c =? insertedId)%Z)
                  (ragConfigurations w), w)) ;;
        ret (hd_error inserted)
    end.

Definition createVectorEmbedding (embedding : VectorEmbedding.insert)
  : Async (option VectorEmbedding.t) :=
  db <- getDb ;;
  if negb db then throw _ DatabaseNotAvailable
  else
    insertedId <- query (fun w =>
      (nextId w,
       makeWorld (available w) (trainingDocuments w) (ragConfigurations w)
         (vectorEmbeddings w ++
            [VectorEmbedding.make (nextId w)
               (VectorEmbedding.newDocumentId embedding)
               (VectorEmbedding.newAgentId embedding)
               (VectorEmbedding.newChunkIndex embedding)
               (VectorEmbedding.newContent embedding)
               (Some (VectorEmbedding.newEmbedding embedding))
               (VectorEmbedding.newMetadata embedding)
               (now w)])
         (nextId w + 1)%Z (now w) (rejections w))) ;;
    inserted <- query (fun w =>
      (filter (fun e => (VectorEmbedding.id e =? insertedId)%Z)
              (vectorEmbeddings w), w)) ;;
    ret (hd_error inserted).

(** [.orderBy(desc(vectorEmbeddings.createdAt))]: newest first; rows of one
    timestamp, whose order MySQL leaves open, stay in table order. *)
Definition orderByCreatedAtDesc (rows : list VectorEmbedding.t)
  : list VectorEmbedding.t :=
  stableSort
    (fun x y => (VectorEmbedding.createdAt x <? VectorEmbedding.createdAt y)%Z)
    rows.

Definition getVectorEmbeddingsByAgentId (agentId : Z)
  : Async (list VectorEmbedding.t) :=
  db <- getDb ;;
  if negb db then ret []
  else
    query (fun w =>
      (orderByCreatedAtDesc
         (filter (fun e => (VectorEmbedding.agentId e =? agentId)%Z)
                 (vectorEmbeddings w)), w)).

Definition deleteVectorEmbeddingsByDocumentId (documentId : Z) : Async unit :=
  db <- getDb ;;
  if negb db then ret tt
  else
    query (fun w =>
      (tt, withVectorEmbeddings w
             (filter (fun e => negb (VectorEmbedding.documentId e =? documentId)%Z)
                     (vectorEmbeddings w)))).

End Db.

(* ================================================================= *)
(** ** The retriever and the indexer (server/rag.ts, lines 64-118 and 150-193) *)

Module Rag.

Import Async Db.
Open Scope float_scope.

(** [parseFloat] at the decimal string of [hundredths] hundredths: the
    binary64 value nearest to the decimal, which is what the correctly
    rounded division of the two integers gives. *)
Definition parseFloat (hundredths : Z) : float :=
  let magnitude := PrimFloat.of_uint63 (Uint63.of_Z (Z.abs hundredths)) / 100 in
  if (hundredths <? 0)%Z then - magnitude else magnitude.

(** [parseFloat(config.similarityThreshold || "0.7")]. *)
Definition thresholdOf (config : RagConfiguration.t) : float :=
  parseFloat
    (match RagConfiguration.similarityThreshold config with
     | Some hundredths => hundredths
     | None => 70%Z
     end).

(** The objects [{ embedding, score }] of the pipeline. *)
Record Scored := makeScored {
  embedding : VectorEmbedding.t;
  score : float
}.

(** The callback of [.map]. *)
Definition scoreAgainst (queryEmbedding : list float) (e : VectorEmbedding.t)
  : Scored :=
  match VectorEmbedding.embedding e with
  | None => makeScored e 0
  | Some vector => makeScored e (cosineSimilarity queryEmbedding vector)
  end.

(** The comparator [(a, b) => b.score - a.score]. *)
Definition byScoreDesc (a b : Scored) : float := score b - score a.

(** [.sort(compare)]: [a] goes after [b] when [compare(a, b) > 0]. *)
Definition sort (compare : Scored -> Scored -> float) (items : list Scored)
  : list Scored :=
  stableSort (fun a b => 0 <? compare a b) items.

(** [scoredEmbeddings]: map, filter, sort, slice. *)
Definition scoredEmbeddings (config : RagConfiguration.t)
    (queryEmbedding : list float) (embeddings : list VectorEmbedding.t)
  : list Scored :=
  slice
    (sort byScoreDesc
       (filter (fun item => thresholdOf config <=? score item)
          (map (scoreAgainst queryEmbedding) embeddings)))
    0 (orDefault (RagConfiguration.topK config) 3).

(** The separator of [contextChunks.join]: two line feeds. *)
Definition separator : jsString := [10%N; 10%N].

Section Runtime.

Variable toLowerCase : jsString -> jsString.

Definition retrieveRelevantContext (agentId : Z) (query : jsString)
  : Async (option jsString) :=
  tryCatch
    (config <- (c <- getOrCreateRagConfig agentId ;; defined c) ;;
     if negb (RagConfiguration.enabled config =? 1)%Z then ret None
     else
       embeddings <- getVectorEmbeddingsByAgentId agentId ;;
       if (length embeddings =? 0)%nat then ret None
       else
         let queryEmbedding := createSimpleEmbedding toLowerCase query in
         let scored := scoredEmbeddings config queryEmbedding embeddings in
         if (length scored =? 0)%nat then ret None
         else
           let contextChunks :=
             map (fun item => VectorEmbedding.content (embedding item)) scored in
           ret (Some (join separator contextChunks)))
    (fun error => ret None).

(** The [for] loop of [processDocumentForRAG], from index [i] on. *)
Fixpoint embedChunks (documentId agentId i : Z) (chunks : list jsString)
  : Async unit :=
  match chunks with
  | [] => ret tt
  | chunk :: rest =>
      createVectorEmbedding
        (VectorEmbedding.makeInsert documentId agentId i chunk
           (createSimpleEmbedding toLowerCase chunk)
           [("chunkSize"%string, Z.of_nat (length chunk))]) ;;;
      embedChunks documentId agentId (i + 1)%Z rest
  end.

(** The steps of the [try] block after the status is set to
    [processing]: chunk, embed and store, report completion. *)
Definition indexChunks (config : RagConfiguration.t)
    (documentId agentId : Z) (content : jsString) : Async unit :=
  let chunks :=
    chunkText content
      (orDefault (RagConfiguration.chunkSize config) 512)
      (orDefault (RagConfiguration.chunkOverlap config) 50) in
  embedChunks documentId agentId 0 chunks ;;;
  updateTrainingDocument documentId
    (TrainingDocument.makePartial (Some completed)
       (Some (Z.of_nat (length chunks)))) ;;;
  ret tt.

(** The [catch] block (the console message is not modelled). *)
Definition recordFailure (documentId : Z) (error : Error) : Async unit :=
  updateTrainingDocument documentId
    (TrainingDocument.makePartial (Some failed) None) ;;;
  throw _ error.

Definition processDocumentForRAG (documentId agentId : Z) (content : jsString)
  : Async unit :=
  tryCatch
    (config <- (c <- getOrCreateRagConfig agentId ;; defined c) ;;
     updateTrainingDocument documentId
       (TrainingDocument.makePartial (Some processing) None) ;;;
     indexChunks config documentId agentId content)
    (recordFailure documentId).

End Runtime.

End Rag.

Import Db Rag.

(* ================================================================= *)
(** ** The prompt augmenter: [buildAugmentedPrompt] (server/rag.ts, lines 198-209) *)

Module Augmenter.

(** The template up to [${context}]. *)
Definition header : jsString :=
  str "Context information from training documents:" ++ [10%N]
  ++ str "---" ++ [10%N].

(** The template between [${context}] and [${originalPrompt}]. *)
Definition instruction : jsString :=
  [10%N] ++ str "---" ++ [10%N; 10%N]
  ++ str "Using the context above, please respond to the following:" ++ [10%N].

Definition buildAugmentedPrompt (originalPrompt context : jsString) : jsString :=
  header ++ context ++ instruction ++ originalPrompt.

End Augmenter.

Import Augmenter.

(* ================================================================= *)
(** ** Training documents (server/db.ts, lines 545-565) *)

Module Documents.

Import Async Db.

(** [InsertTrainingDocument]: [None] is a field left out, for which the
    column default applies ([status] "pending", [chunkCount] 0). *)
Record insert := makeInsert {
  newAgentId : Z;
  newUserId : Z;
  newFileName : jsString;
  newFileType : jsString;
  newContent : jsString;
  newStatus : option DocumentStatus;
  newChunkCount : option Z
}.

Definition createTrainingDocument (document : insert)
  : Async (option TrainingDocument.t) :=
  db <- getDb ;;
  if negb db then throw _ DatabaseNotAvailable
  else
    insertedId <- query (fun w =>
      (nextId w,
       makeWorld (available w)
         (trainingDocuments w ++
            [TrainingDocument.make (nextId w)
               (newAgentId document) (newUserId document)
               (newFileName document) (newFileType document)
               (newContent document)
               (match newStatus document with Some s => s | None => pending end)
               (match newChunkCount document with
                | Some n => Some n
                | None => Some 0%Z
                end)
               (now w) (now w)])
         (ragConfigurations w) (vectorEmbeddings w)
         (nextId w + 1)%Z (now w) (rejections w))) ;;
    inserted <- query (fun w =>
      (filter (fun d => (TrainingDocument.id d =? insertedId)%Z)
              (trainingDocuments w), w)) ;;
    ret (hd_error inserted).

(** [.orderBy(desc(trainingDocuments.createdAt))], as for the chunks. *)
Definition newestDocumentsFirst (rows : list TrainingDocument.t)
  : list TrainingDocument.t :=
  stableSort
    (fun x y => (TrainingDocument.createdAt x <? TrainingDocument.createdAt y)%Z)
    rows.

Definition getTrainingDocumentsByAgentId (agentId : Z)
  : Async (list TrainingDocument.t) :=
  db <- getDb ;;
  if negb db then ret []
  else
    query (fun w =>
      (newestDocumentsFirst
         (filter (fun d => (TrainingDocument.agentId d =? agentId)%Z)
                 (trainingDocuments w)), w)).

End Documents.

(* ================================================================= *)
(** ** UI flows (server/db.ts, lines 659-803; drizzle/schema.ts) *)

(** The three tables of the flow builder are touched by no other helper, so
    they get a world of their own, with the same handle and the same fates of
    queries as [World]. *)

Module UiFlow.
Record t := make {
  id : Z;
  userId : Z;
  agentId : option Z;
  name : jsString;
  mermaidDiagram : option jsString;
  updatedAt : Z
}.
End UiFlow.

Module UiFrame.
Record t := make {
  id : Z;
  flowId : Z;
  frameId : jsString;
  name : jsString;
  positionX : option Z;
  positionY : option Z
}.
End UiFrame.

Module UiConnection.
Record t := make {
  id : Z;
  flowId : Z;
  connectionId : jsString;
  sourceFrameId : jsString;
  targetFrameId : jsString
}.
End UiConnection.

Module Canvas.

Import Async.

Record CanvasWorld := makeCanvas {
  reachable : bool;
  uiFlows : list UiFlow.t;
  uiFrames : list UiFrame.t;
  uiConnections : list UiConnection.t;
  fates : list (option Error)
}.

Definition Task (A : Type) : Type := CanvasWorld -> Outcome A * CanvasWorld.

(** [await first; rest]. *)
Definition andThen (A B : Type) (first : Task A) (rest : A -> Task B) : Task B :=
  fun w =>
    match first w with
    | (Return a, w') => rest a w'
    | (Throw e, w') => (Throw e, w')
    end.

(** One awaited query on the three tables: rejected, or run. *)
Definition statement (A : Type) (run : CanvasWorld -> A * CanvasWorld) : Task A :=
  fun w =>
    let w0 := makeCanvas (reachable w) (uiFlows w) (uiFrames w) (uiConnections w)
                (tl (fates w)) in
    match hd None (fates w) with
    | Some e => (Throw e, w0)
    | None => let (a, w') := run w0 in (Return a, w')
    end.

Definition getUiFlowById (id userId : Z) : Task (option UiFlow.t) :=
  fun w =>
    if negb (reachable w) then (Return None, w)
    else
      andThen
        (statement (fun w =>
           (filter (fun f => (UiFlow.id f =? id)%Z && (UiFlow.userId f =? userId)%Z)
                   (uiFlows w), w)))
        (fun flows w => (Return (hd_error flows), w)) w.

Definition getUiFramesByFlowId (flowId : Z) : Task (list UiFrame.t) :=
  fun w =>
    if negb (reachable w) then (Return [], w)
    else
      statement (fun w =>
        (filter (fun f => (UiFrame.flowId f =? flowId)%Z) (uiFrames w), w)) w.

Definition getUiConnectionsByFlowId (flowId : Z) : Task (list UiConnection.t) :=
  fun w =>
    if negb (reachable w) then (Return [], w)
    else
      statement (fun w =>
        (filter (fun c => (UiConnection.flowId c =? flowId)%Z) (uiConnections w), w))
        w.

Definition deleteUiFlow (id userId : Z) : Task unit :=
  fun w =>
    if negb (reachable w) then (Return tt, w)
    else
      andThen
        (statement (fun w =>
           (tt, makeCanvas (reachable w) (uiFlows w)
                  (filter (fun f => negb (UiFrame.flowId f =? id)%Z) (uiFrames w))
                  (uiConnections w) (fates w))))
        (fun _ =>
           andThen
             (statement (fun w =>
                (tt, makeCanvas (reachable w) (uiFlows w) (uiFrames w)
                       (filter (fun c => negb (UiConnection.flowId c =? id)%Z)
                          (uiConnections w))
                       (fates w))))
             (fun _ =>
                statement (fun w =>
                  (tt, makeCanvas (reachable w)
                         (filter (fun f => negb ((UiFlow.id f =? id)%Z
                                                 && (UiFlow.userId f =? userId)%Z))
                            (uiFlows w))
                         (uiFrames w) (uiConnections w) (fates w))))) w.

Definition deleteUiFrame (id flowId : Z) : Task unit :=
  fun w =>
    if negb (reachable w) then (Return tt, w)
    else
      statement (fun w =>
        (tt, makeCanvas (reachable w) (uiFlows w)
               (filter (fun f => negb ((UiFrame.id f =? id)%Z
                                       && (UiFrame.flowId f =? flowId)%Z))
                  (uiFrames w))
               (uiConnections w) (fates w))) w.

End Canvas.

(* ================================================================= *)
(** ** Vocabulary of the statements *)

(** What a step of the indexer may do to the chunk table: append rows of the
    document, and nothing else; the document table and the handle stay. *)
Definition appends (documentId agentId : Z) (w w' : World)
    (added : list VectorEmbedding.t) : Prop :=
  vectorEmbeddings w' = vectorEmbeddings w ++ added
  /\ Forall (fun e => VectorEmbedding.documentId e = documentId
                      /\ VectorEmbedding.agentId e = agentId) added
  /\ available w' = available w.

(** A number that is a zero or NaN, read off its binary64 datum. *)
Definition zeroOrNaN (x : float) : Prop :=
  match Prim2SF x with
  | S754_zero _ | S754_nan => True
  | _ => False
  end.

(** A number that is +0 or NaN. *)
Definition positiveZeroOrNaN (x : float) : Prop :=
  match Prim2SF x with
  | S754_zero false | S754_nan => True
  | _ => False
  end.

(** A number that is not NaN. *)
Definition isNumber (x : float) : Prop := Prim2SF x <> S754_nan.

(** Beyond every finite binary64 number, in units of 2^-1074. *)
Definition beyond : Z := (2 ^ 2100)%Z.

(** The place of a binary64 datum on the number line, in units of 2^-1074,
    the least positive number: both zeros are at 0, the infinities lie
    beyond every finite number.  NaN has no place; 0 stands in. *)
Definition place (x : spec_float) : Z :=
  match x with
  | S754_zero _ | S754_nan => 0%Z
  | S754_infinity s => cond_Zopp s beyond
  | S754_finite s m e => cond_Zopp s (Zpos m * 2 ^ (e + 1074))%Z
  end.

Definition placeOf (x : float) : Z := place (Prim2SF x).

(** The number of chunks of a text of [len > 0] code units when
    [0 <= overlap < chunkSize]: one, or the ceiling of
    [(len - overlap) / (chunkSize - overlap)] when that is more. *)
Definition chunksOf (len chunkSize overlap : Z) : Z :=
  Z.max 1 ((len - overlap + (chunkSize - overlap) - 1) / (chunkSize - overlap)).

(** The database is reachable and no query to come is rejected. *)
Definition calm (w : World) : Prop :=
  available w = true /\ rejections w = [].

(** Every chunk row has an id below the next [AUTO_INCREMENT] value, and no
    two chunk rows share an id. *)
Definition chunkIdsFresh (w : World) : Prop :=
  Forall (fun e => (VectorEmbedding.id e < nextId w)%Z) (vectorEmbeddings w)
  /\ NoDup (map VectorEmbedding.id (vectorEmbeddings w)).

(** The rows a completed [for] loop of the indexer has inserted for [chunks]:
    ids count up from [firstId], chunk indices from [firstIndex], and every
    row carries the embedding of its own content, the length of that content
    as [metadata.chunkSize], and the time of the run. *)
Fixpoint chunkRows (toLowerCase : jsString -> jsString)
    (documentId agentId firstId firstIndex createdAt : Z)
    (chunks : list jsString) : list VectorEmbedding.t :=
  match chunks with
  | [] => []
  | chunk :: rest =>
      VectorEmbedding.make firstId documentId agentId firstIndex chunk
        (Some (createSimpleEmbedding toLowerCase chunk))
        [("chunkSize"%string, Z.of_nat (length chunk))] createdAt
      :: chunkRows toLowerCase documentId agentId (firstId + 1) (firstIndex + 1)
           createdAt rest
  end.

(** Unfolds the monad down to the tables. *)
Ltac run_async :=
  unfold bind, tryCatch, getDb, query, ret, throw, defined; simpl.


(* ================================================================= *)
(** ** Concrete worlds *)

Module Scenarios.

Import Async Db Rag.

Definition fox : jsString := str "The quick brown fox. The lazy dog sleeps.".

(** Document 1 of agent 3, uploaded by user 7, not yet processed. *)
Definition foxDocument : TrainingDocument.t :=
  TrainingDocument.make 1 3 7 (str "fox.txt") (str "text/plain") fox
    pending (Some 0%Z) 90 90.

(** The configuration of agent 3: chunks of 20 code units overlapping by 5. *)
Definition configOf (topK similarityThreshold : option Z) : RagConfiguration.t :=
  RagConfiguration.make 1 3 1 (Some 20%Z) (Some 5%Z) topK similarityThreshold
    (Some (str "text-embedding-ada-002")).

(** A chunk of a document of agent 3 as the indexer stores it. *)
Definition chunkRowOf (documentId id chunkIndex : Z) (content : jsString)
    (createdAt : Z) : VectorEmbedding.t :=
  VectorEmbedding.make id documentId 3 chunkIndex content
    (Some (createSimpleEmbedding asciiToLowerCase content))
    [("chunkSize"%string, Z.of_nat (length content))] createdAt.

(** A chunk of document 1. *)
Definition chunkRow : Z -> Z -> jsString -> Z -> VectorEmbedding.t :=
  chunkRowOf 1.

Definition world (config : RagConfiguration.t) (chunks : list VectorEmbedding.t)
    (rejections : list (option Error)) : World :=
  makeWorld true [foxDocument] [config] chunks 10 100 rejections.

(** The document is uploaded and the database answers every query. *)
Definition uploaded : World := world (configOf (Some 3%Z) (Some 70%Z)) [] [].

(** No [DATABASE_URL]: [getDb()] yields [null]. *)
Definition offline : World :=
  makeWorld false [] [] [] 1 100 [].

(** The database is configured but rejects the next query. *)
Definition unreachable : World :=
  world (configOf (Some 3%Z) (Some 70%Z)) [chunkRow 4 0 fox 95]
    [Some (QueryFailed 2006)].

(** One stored chunk, and a threshold of [0.00]. *)
Definition zeroThreshold : World :=
  world (configOf (Some 3%Z) (Some 0%Z)) [chunkRow 4 0 (str "lazy dog") 95] [].

(** Two chunks with the same letters, hence the same embedding: ["listen"]
    was stored at time 95, ["silent"] later, at time 97. *)
Definition anagrams : World :=
  world (configOf (Some 3%Z) (Some 70%Z))
    [chunkRow 4 0 (str "listen") 95; chunkRow 5 1 (str "silent") 97] [].

(** Chunks of document 1 and a chunk of document 2, all of agent 3. *)
Definition twoDocuments : World :=
  world (configOf (Some 3%Z) (Some 70%Z))
    [chunkRow 4 0 (str "listen") 95; chunkRowOf 2 5 0 (str "other") 96;
     chunkRow 6 1 (str "silent") 97] [].


(** Processing starts; the insert of the first chunk is rejected, and so is
    the update that would record the failure. *)
Definition outage : World :=
  world (configOf (Some 3%Z) (Some 70%Z)) []
    [None; None; None; Some (QueryFailed 2006); Some (QueryFailed 2013)].

(** A one-chunk document is stored and marked completed; the read-back of
    that update is rejected, and so is the update recording the failure. *)
Definition lateOutage : World :=
  world (configOf (Some 3%Z) (Some 70%Z)) []
    [None; None; None; None; None; None;
     Some (QueryFailed 2006); Some (QueryFailed 2013)].

(** The insert of the first chunk is rejected; later queries run. *)
Definition glitch : World :=
  world (configOf (Some 3%Z) (Some 70%Z)) []
    [None; None; None; Some (QueryFailed 1205)].

(** The insert of the first chunk is rejected; the UPDATE recording the
    failure runs, and the query reading the row back is rejected. *)
Definition readBackRejected : World :=
  world (configOf (Some 3%Z) (Some 70%Z)) []
    [None; None; None; Some (QueryFailed 2006); None; Some (QueryFailed 2013)].

(** The first chunk is stored; the insert of the second is rejected. *)
Definition secondChunkRejected : World :=
  world (configOf (Some 3%Z) (Some 70%Z)) []
    [None; None; None; None; None; Some (QueryFailed 1205)].

End Scenarios.

Import Scenarios.

(* ================================================================= *)
(** * Properties *)

(** ** The chunker *)

Section ChunkerFacts.

Variables (text : jsString) (chunkSize overlap : Z).

Let len : Z := Z.of_nat (length text).

(** What the loop has pushed so far stays in front of what it pushes next. *)
Lemma chunkLoop_acc (fuel : nat) (start : Z) (acc : list jsString) :
  chunkLoop text chunkSize overlap fuel start acc
  = option_map (app acc) (chunkLoop text chunkSize overlap fuel start []).
Proof.
  revert start acc.
  induction fuel as [|fuel IH]; intros start acc; simpl; [reflexivity|].
  destruct (start <? Z.of_nat (length text))%Z; simpl.
  - destruct (_ || _); simpl; [reflexivity|].
    rewrite IH. rewrite (IH _ [_]).
    destruct (chunkLoop _ _ _ _ _ []); simpl; [|reflexivity].
    now rewrite <- app_assoc.
  - now rewrite app_nil_r.
Qed.

(** From a start at or after 0 the loop is left within [len - start]
    iterations, and it pushes at most that many chunks. *)
Lemma chunkLoop_enough_fuel (fuel : nat) (start : Z) (acc : list jsString) :
  (0 <= start)%Z ->
  (Z.to_nat (len - start) < fuel)%nat ->
  exists chunks,
    chunkLoop text chunkSize overlap fuel start acc = Some (acc ++ chunks)
    /\ (length chunks <= Z.to_nat (len - start))%nat.
Proof.
  subst len. revert start acc.
  induction fuel as [|fuel IH]; intros start acc Hstart Hfuel; [lia|].
  simpl.
  destruct (start <? Z.of_nat (length text))%Z eqn:Hlt.
  - apply Z.ltb_lt in Hlt.
    destruct (_ || _) eqn:Hbreak.
    + eexists [_]. split; [reflexivity|]. simpl. lia.
    + apply orb_false_elim in Hbreak. destruct Hbreak as [Hnext Hend].
      apply Z.leb_gt in Hnext. rewrite Z.geb_leb in Hend.
      apply Z.leb_gt in Hend.
      destruct (IH (Z.min (start + chunkSize) (Z.of_nat (length text)) - overlap)%Z
                   (acc ++ [slice text start
                              (Z.min (start + chunkSize) (Z.of_nat (length text)))]))
        as (chunks & Hrun & Hcount); [lia|lia|].
      rewrite Hrun. eexists (_ :: chunks).
      split; [now rewrite <- app_assoc|]. simpl. lia.
  - exists []. split; [now rewrite app_nil_r|]. simpl. lia.
Qed.

(** More fuel than needed does not change the result. *)
Lemma chunkLoop_more_fuel (fuel fuel' : nat) (start : Z) (acc chunks : list jsString) :
  chunkLoop text chunkSize overlap fuel start acc = Some chunks ->
  (fuel <= fuel')%nat ->
  chunkLoop text chunkSize overlap fuel' start acc = Some chunks.
Proof.
  revert fuel' start acc.
  induction fuel as [|fuel IH]; intros fuel' start acc Hrun Hle; [discriminate|].
  destruct fuel' as [|fuel']; [lia|].
  simpl in *.
  destruct (start <? Z.of_nat (length text))%Z; [|assumption].
  destruct (_ || _); [assumption|].
  apply IH; [assumption|lia].
Qed.

(** [chunkText] is the result of the loop. *)
Lemma chunkText_loop :
  chunkLoop text chunkSize overlap (fuelFor text) 0 []
  = Some (chunkText text chunkSize overlap).
Proof.
  unfold chunkText.
  destruct (@chunkLoop_enough_fuel (fuelFor text) 0 [])
    as (chunks & Hrun & _).
  - lia.
  - subst len. unfold fuelFor. lia.
  - now rewrite Hrun.
Qed.

End ChunkerFacts.

Lemma slice_inside (A : Type) (s : list A) (start end_ : Z) :
  (0 <= start <= end_)%Z -> (end_ <= Z.of_nat (length s))%Z ->
  slice s start end_
  = firstn (Z.to_nat (end_ - start)) (skipn (Z.to_nat start) s).
Proof.
  intros Hstart Hend. unfold slice.
  destruct (start <? 0)%Z eqn:Hs; [apply Z.ltb_lt in Hs; lia|].
  destruct (end_ <? 0)%Z eqn:He; [apply Z.ltb_lt in He; lia|].
  now rewrite !Z.min_l by lia.
Qed.

Lemma skipn_app_short (A : Type) (n : nat) (l1 l2 : list A) :
  (n <= length l1)%nat -> skipn n l1 ++ l2 = skipn n (l1 ++ l2).
Proof.
  intros Hn. rewrite skipn_app.
  replace (n - length l1)%nat with 0%nat by lia. reflexivity.
Qed.

Section ChunkerCover.

Variables (text : jsString) (chunkSize overlap : Z).

Hypothesis overlap_valid : (0 <= overlap < chunkSize)%Z.

Let len : Z := Z.of_nat (length text).

(** With a valid overlap, the chunks pushed from [start] on read back as the
    text from [start] on; the first of them has [min chunkSize (len - start)]
    code units and the last one is a suffix of the text. *)
Lemma chunkLoop_cover (fuel : nat) (start : Z) (chunks : list jsString) :
  (0 <= start < len)%Z ->
  chunkLoop text chunkSize overlap fuel start [] = Some chunks ->
  exists c rest,
    chunks = c :: rest
    /\ Z.of_nat (length c) = Z.min chunkSize (len - start)
    /\ c ++ concat (map (skipn (Z.to_nat overlap)) rest)
       = skipn (Z.to_nat start) text
    /\ exists s, (s < length text)%nat /\ last chunks [] = skipn s text.
Proof.
  subst len. revert start chunks.
  induction fuel as [|fuel IH]; intros start chunks Hstart Hrun; [discriminate|].
  simpl in Hrun.
  destruct (Z.ltb_spec start (Z.of_nat (length text))) as [_|]; [|lia].
  set (end_ := Z.min (start + chunkSize) (Z.of_nat (length text))) in *.
  assert (Hchunk : slice text start end_
                   = firstn (Z.to_nat (end_ - start)) (skipn (Z.to_nat start) text))
    by (apply slice_inside; subst end_; lia).
  assert (Hlen : Z.of_nat (length (slice text start end_))
                 = Z.min chunkSize (Z.of_nat (length text) - start)).
  { rewrite Hchunk, length_firstn, length_skipn. subst end_. lia. }
  destruct (_ || _) eqn:Hbreak.
  - (* the loop is left: this chunk reaches the end of the text *)
    injection Hrun as <-.
    apply orb_true_iff in Hbreak.
    assert (Hend : end_ = Z.of_nat (length text)).
    { destruct Hbreak as [H|H].
      - apply Z.leb_le in H. subst end_. lia.
      - rewrite Z.geb_leb in H. apply Z.leb_le in H. subst end_. lia. }
    assert (Hall : slice text start end_ = skipn (Z.to_nat start) text).
    { rewrite Hchunk. apply firstn_all2. rewrite length_skipn. lia. }
    exists (slice text start end_), []. simpl.
    repeat split; [exact Hlen|now rewrite app_nil_r|].
    exists (Z.to_nat start). split; [lia|exact Hall].
  - (* the loop goes on from [end_ - overlap] *)
    apply orb_false_elim in Hbreak. destruct Hbreak as [Hnext Hend].
    apply Z.leb_gt in Hnext. rewrite Z.geb_leb in Hend. apply Z.leb_gt in Hend.
    simpl in Hrun. rewrite chunkLoop_acc in Hrun.
    destruct (chunkLoop text chunkSize overlap fuel (end_ - overlap) [])
      as [later|] eqn:Hlater; [|discriminate].
    injection Hrun as <-.
    assert (Hrange : (0 <= end_ - overlap < Z.of_nat (length text))%Z)
      by (unfold end_ in *; lia).
    destruct (IH _ _ Hrange Hlater)
      as (c1 & rest & -> & Hlen1 & Hcover & s & Hs & Hlast).
    exists (slice text start end_), (c1 :: rest).
    repeat split; [exact Hlen|..].
    + simpl. rewrite skipn_app_short by (unfold end_ in *; lia).
      rewrite Hcover, skipn_skipn, Hchunk.
      replace (Z.to_nat overlap + Z.to_nat (end_ - overlap))%nat
        with (Z.to_nat (end_ - start) + Z.to_nat start)%nat
        by (unfold end_ in *; lia).
      rewrite <- skipn_skipn. apply firstn_skipn.
    + exists s. split; [exact Hs|exact Hlast].
Qed.

End ChunkerCover.

(** A text that fits into one chunk is pushed whole, and the loop is left. *)
Lemma chunkText_short (text : jsString) (chunkSize overlap : Z) :
  text <> [] -> (Z.of_nat (length text) <= chunkSize)%Z ->
  chunkText text chunkSize overlap = [text].
Proof.
  intros Hne Hshort.
  assert (Hlen : (0 < Z.of_nat (length text))%Z)
    by (destruct text; [congruence|simpl; lia]).
  unfold chunkText, fuelFor. simpl.
  destruct (Z.ltb_spec 0 (Z.of_nat (length text))) as [_|]; [|lia].
  rewrite Z.min_r by lia.
  rewrite slice_inside by lia.
  rewrite Z.sub_0_r, Nat2Z.id. simpl. rewrite firstn_all.
  assert (Hend : (Z.of_nat (length text) >=? Z.of_nat (length text))%Z = true)
    by (rewrite Z.geb_leb; apply Z.leb_refl).
  rewrite Hend, orb_true_r. reflexivity.
Qed.

(** C7. Chunker correctness: the empty text gives no chunk; a non-empty text
    shorter than [chunkSize] gives one chunk, the text itself; and for a
    non-empty text and [chunkSize > overlap >= 0], the chunks read back as the
    text once the leading [overlap] code units of every chunk after the first
    are removed, and the last chunk is [text.slice(start, text.length)] for a
    start inside the text: it ends exactly at [text.length]. *)
Theorem chunkText_correct (text : jsString) (chunkSize overlap : Z) :
  chunkText [] chunkSize overlap = []
  /\ (text <> [] -> (Z.of_nat (length text) < chunkSize)%Z ->
      chunkText text chunkSize overlap = [text])
  /\ (text <> [] -> (0 <= overlap < chunkSize)%Z ->
      removeOverlap overlap (chunkText text chunkSize overlap) = text
      /\ exists start : nat,
           (start < length text)%nat
           /\ last (chunkText text chunkSize overlap) []
              = slice text (Z.of_nat start) (Z.of_nat (length text))).
Proof.
  split; [reflexivity|]. split.
  - intros Hne Hshort. apply chunkText_short; [assumption|lia].
  - intros Hne Hvalid.
    assert (Hlen : (0 < Z.of_nat (length text))%Z)
      by (destruct text; [congruence|simpl; lia]).
    destruct (@chunkLoop_cover text chunkSize overlap Hvalid (fuelFor text) 0
                (chunkText text chunkSize overlap))
      as (c & rest & Hchunks & _ & Hcover & s & Hs & Hlast);
      [lia|apply chunkText_loop|].
    split.
    + rewrite Hchunks. simpl. exact Hcover.
    + exists s. split; [exact Hs|].
      rewrite slice_inside by lia. rewrite Nat2Z.id, Hlast.
      symmetry. apply firstn_all2. rewrite length_skipn. lia.
Qed.

Lemma chunkText_correct_witness :
  chunkText [] 20 5 = []
  /\ chunkText (str "The quick brown fox.") 512 50 = [str "The quick brown fox."]
  /\ removeOverlap 5
       (chunkText (str "The quick brown fox. The lazy dog sleeps.") 20 5)
     = str "The quick brown fox. The lazy dog sleeps.".
Proof.
  split; [|split].
  - exact (proj1 (chunkText_correct [] 20 5)).
  - apply (proj1 (proj2 (chunkText_correct (str "The quick brown fox.") 512 50)));
      [discriminate|reflexivity].
  - apply (proj2 (proj2
       (chunkText_correct (str "The quick brown fox. The lazy dog sleeps.") 20 5)));
      [discriminate|split; [discriminate|reflexivity]].
Defined.

(** C8. Chunker termination: for every text and overlap and every
    [chunkSize > 0], the loop of [chunkText] is left within
    [text.length + 1] iterations, whatever larger bound it is given, and the
    chunks it returns are no more than the code units of the text; when
    [overlap >= chunkSize] the next start does not pass the current one and
    the loop is left after the first chunk. *)
Theorem chunkText_terminates (text : jsString) (chunkSize overlap : Z) :
  (0 < chunkSize)%Z ->
  (forall fuel : nat,
      (length text < fuel)%nat ->
      chunkLoop text chunkSize overlap fuel 0 []
      = Some (chunkText text chunkSize overlap))
  /\ (length (chunkText text chunkSize overlap) <= length text)%nat
  /\ (text <> [] -> (chunkSize <= overlap)%Z ->
      chunkText text chunkSize overlap = [slice text 0 chunkSize]).
Proof.
  intros Hsize. split; [|split].
  - intros fuel Hfuel.
    apply chunkLoop_more_fuel with (fuel := fuelFor text);
      [apply chunkText_loop|unfold fuelFor; lia].
  - destruct (@chunkLoop_enough_fuel text chunkSize overlap (fuelFor text) 0 [])
      as (chunks & Hrun & Hcount); [lia|unfold fuelFor; lia|].
    rewrite chunkText_loop in Hrun. injection Hrun as ->. simpl. lia.
  - intros Hne Hov.
    assert (Hlen : (0 < Z.of_nat (length text))%Z)
      by (destruct text; [congruence|simpl; lia]).
    unfold chunkText, fuelFor. simpl.
    destruct (Z.ltb_spec 0 (Z.of_nat (length text))) as [_|]; [|lia].
    assert (Hstop : (Z.min chunkSize (Z.of_nat (length text)) - overlap <=? 0)%Z = true)
      by (apply Z.leb_le; lia).
    rewrite Hstop. simpl.
    assert (Hsame : slice text 0 (Z.min chunkSize (Z.of_nat (length text)))
                    = slice text 0 chunkSize).
    { unfold slice. simpl.
      destruct (Z.min chunkSize (Z.of_nat (length text)) <? 0)%Z eqn:Hneg;
        [apply Z.ltb_lt in Hneg; lia|].
      destruct (chunkSize <? 0)%Z eqn:Hneg';
        [apply Z.ltb_lt in Hneg'; lia|].
      now rewrite <- Z.min_assoc, Z.min_id. }
    now rewrite Hsame.
Qed.

Lemma chunkText_terminates_witness :
  chunkLoop (str "The quick brown fox.") 8 8 100 0 []
  = Some (chunkText (str "The quick brown fox.") 8 8)
  /\ chunkText (str "The quick brown fox.") 8 8 = [str "The quic"].
Proof.
  split.
  - apply (proj1 (@chunkText_terminates (str "The quick brown fox.") 8 8
                    ltac:(reflexivity))).
    simpl. lia.
  - apply (proj2 (proj2 (@chunkText_terminates (str "The quick brown fox.") 8 8
                           ltac:(reflexivity))));
      [discriminate|discriminate].
Defined.

(* ----------------------------------------------------------------- *)
(** ** The embedder and the similarity *)

Lemma asciiToLowerCase_idempotent (s : jsString) :
  asciiToLowerCase (asciiToLowerCase s) = asciiToLowerCase s.
Proof.
  unfold asciiToLowerCase. rewrite map_map. apply map_ext. intros c.
  destruct ((65 <=? c) && (c <=? 90))%N eqn:Hupper; [|now rewrite Hupper].
  apply andb_true_iff in Hupper. destruct Hupper as [Hlo Hhi].
  apply N.leb_le in Hlo. apply N.leb_le in Hhi.
  destruct (N.leb_spec (c + 32) 90) as [H|_]; [lia|].
  now rewrite andb_false_r.
Qed.

Section CaseInsensitive.

Variable toLowerCase : jsString -> jsString.

(** Lowercasing a lowercased string changes nothing. *)
Hypothesis toLowerCase_idempotent :
  forall s, toLowerCase (toLowerCase s) = toLowerCase s.

(** C10. The placeholder embedder is case-insensitive: the embedding of [x]
    is the normalised 128-entry histogram of [toLowerCase x], so it equals
    the embedding of [toLowerCase x]; consequently the similarity of a query
    and a chunk is the similarity of their lowercased forms. *)
Theorem createSimpleEmbedding_case_insensitive (x : jsString) :
  createSimpleEmbedding toLowerCase x
  = createSimpleEmbedding toLowerCase (toLowerCase x)
  /\ createSimpleEmbedding toLowerCase x = normalize (frequencies (toLowerCase x))
  /\ length (frequencies (toLowerCase x)) = 128%nat
  /\ forall chunk : jsString,
       cosineSimilarity (createSimpleEmbedding toLowerCase x)
         (createSimpleEmbedding toLowerCase chunk)
       = cosineSimilarity (createSimpleEmbedding toLowerCase (toLowerCase x))
           (createSimpleEmbedding toLowerCase (toLowerCase chunk)).
Proof.
  assert (Hsame : forall s, createSimpleEmbedding toLowerCase s
                            = createSimpleEmbedding toLowerCase (toLowerCase s)).
  { intros s. unfold createSimpleEmbedding.
    now rewrite toLowerCase_idempotent. }
  split; [apply Hsame|]. split; [reflexivity|]. split.
  - unfold frequencies.
    assert (Hkeep : forall index embedding,
               length (increment index embedding) = length embedding).
    { intros index embedding. revert index.
      induction embedding as [|val rest IH]; intros [|index]; simpl;
        try reflexivity.
      now rewrite IH. }
    generalize (repeat 0%float 128) (repeat_length 0%float 128).
    induction (toLowerCase x) as [|c s IH]; intros embedding Hlen; simpl;
      [exact Hlen|].
    apply IH. now rewrite Hkeep.
  - intros chunk. now rewrite <- (Hsame x), <- (Hsame chunk).
Qed.

End CaseInsensitive.

Lemma createSimpleEmbedding_case_insensitive_witness :
  createSimpleEmbedding asciiToLowerCase (str "Lazy DOG")
  = createSimpleEmbedding asciiToLowerCase (asciiToLowerCase (str "Lazy DOG")).
Proof.
  exact (proj1 (@createSimpleEmbedding_case_insensitive asciiToLowerCase
                  asciiToLowerCase_idempotent (str "Lazy DOG"))).
Defined.

(** The embedding of the empty string: 128 zeros (the norm is 0). *)
Lemma createSimpleEmbedding_empty (toLowerCase : jsString -> jsString) :
  toLowerCase [] = [] ->
  createSimpleEmbedding toLowerCase [] = repeat 0%float 128.
Proof.
  intros Hempty. unfold createSimpleEmbedding. rewrite Hempty.
  vm_compute. reflexivity.
Qed.

Open Scope float_scope.

(** *** The similarity at a zero vector, for all vectors *)

Lemma mul_zero_l (y : float) : zeroOrNaN (0 * y).
Proof.
  unfold zeroOrNaN. rewrite mul_spec.
  change (Prim2SF 0) with (S754_zero false).
  destruct (Prim2SF y); exact I.
Qed.

Lemma mul_zero_r (x : float) : zeroOrNaN (x * 0).
Proof.
  unfold zeroOrNaN. rewrite mul_spec.
  change (Prim2SF 0) with (S754_zero false).
  destruct (Prim2SF x); exact I.
Qed.

Lemma mul_positive_zero_l (x y : float) :
  Prim2SF x = S754_zero false -> zeroOrNaN (x * y).
Proof.
  intros Hx. unfold zeroOrNaN. rewrite mul_spec, Hx.
  destruct (Prim2SF y); exact I.
Qed.

Lemma mul_positive_zero_r (x y : float) :
  Prim2SF y = S754_zero false -> zeroOrNaN (x * y).
Proof.
  intros Hy. unfold zeroOrNaN. rewrite mul_spec, Hy.
  destruct (Prim2SF x); exact I.
Qed.

Lemma add_zeroOrNaN (sum term : float) :
  positiveZeroOrNaN sum -> zeroOrNaN term -> positiveZeroOrNaN (sum + term).
Proof.
  unfold positiveZeroOrNaN, zeroOrNaN. rewrite add_spec.
  destruct (Prim2SF sum) as [[|]| | |]; try contradiction;
    destruct (Prim2SF term) as [[|]| | |]; try contradiction; intros _ _; exact I.
Qed.

Lemma add_square_of_zero (norm : float) :
  Prim2SF norm = S754_zero false -> Prim2SF (norm + 0 * 0) = S754_zero false.
Proof.
  intros Hnorm. rewrite add_spec, Hnorm. reflexivity.
Qed.

Lemma div_zeroOrNaN (x y : float) :
  positiveZeroOrNaN x -> zeroOrNaN y -> PrimFloat.is_nan (x / y) = true.
Proof.
  unfold positiveZeroOrNaN, zeroOrNaN, PrimFloat.is_nan.
  rewrite eqb_spec, div_spec.
  destruct (Prim2SF x) as [[|]| | |]; try contradiction;
    destruct (Prim2SF y) as [[|]| | |]; try contradiction; intros _ _; reflexivity.
Qed.

Lemma sqrt_positive_zero (x : float) :
  Prim2SF x = S754_zero false -> Prim2SF (sqrt x) = S754_zero false.
Proof.
  intros Hx. rewrite sqrt_spec, Hx. reflexivity.
Qed.

(** The three sums of the loop when the first vector is all zeros: the dot
    product is +0 or NaN and the first norm is +0. *)
Lemma sums_zero_l (a b : list float) (dotProduct normA normB : float) :
  Forall (eq 0) a ->
  positiveZeroOrNaN dotProduct ->
  Prim2SF normA = S754_zero false ->
  let '(dotProduct', normA', _) :=
    fold_left
      (fun '(dotProduct, normA, normB) '(x, y) =>
         (dotProduct + x * y, normA + x * x, normB + y * y))
      (combine a b) (dotProduct, normA, normB) in
  positiveZeroOrNaN dotProduct' /\ Prim2SF normA' = S754_zero false.
Proof.
  intros Ha. revert b dotProduct normA normB.
  induction Ha as [|x a <- Ha IH]; intros b dotProduct normA normB Hdot Hnorm.
  - simpl. auto.
  - destruct b as [|y b]; simpl; [auto|].
    apply IH.
    + apply add_zeroOrNaN; [assumption|apply mul_zero_l].
    + now apply add_square_of_zero.
Qed.

Lemma sums_zero_r (a b : list float) (dotProduct normA normB : float) :
  Forall (eq 0) b ->
  positiveZeroOrNaN dotProduct ->
  Prim2SF normB = S754_zero false ->
  let '(dotProduct', _, normB') :=
    fold_left
      (fun '(dotProduct, normA, normB) '(x, y) =>
         (dotProduct + x * y, normA + x * x, normB + y * y))
      (combine a b) (dotProduct, normA, normB) in
  positiveZeroOrNaN dotProduct' /\ Prim2SF normB' = S754_zero false.
Proof.
  intros Hb. revert a dotProduct normA normB.
  induction Hb as [|y b <- Hb IH]; intros a dotProduct normA normB Hdot Hnorm.
  - destruct a; simpl; auto.
  - destruct a as [|x a]; simpl; [auto|].
    apply IH.
    + apply add_zeroOrNaN; [assumption|apply mul_zero_r].
    + now apply add_square_of_zero.
Qed.

(** For vectors of one length, one of them all zeros, the similarity is NaN:
    never 0. *)
Lemma cosineSimilarity_zero_vector_nan (a b : list float) :
  length a = length b ->
  Forall (eq 0) a \/ Forall (eq 0) b ->
  PrimFloat.is_nan (cosineSimilarity a b) = true.
Proof.
  intros Hlen Hzero. unfold cosineSimilarity.
  rewrite Hlen, Nat.eqb_refl. simpl.
  destruct Hzero as [Ha|Hb].
  - pose proof (@sums_zero_l a b 0 0 0 Ha I eq_refl) as Hsums.
    destruct (fold_left _ (combine a b) (0, 0, 0)) as [[dotProduct normA] normB].
    destruct Hsums as [Hdot Hnorm].
    apply div_zeroOrNaN; [assumption|].
    apply mul_positive_zero_l. now apply sqrt_positive_zero.
  - pose proof (@sums_zero_r a b 0 0 0 Hb I eq_refl) as Hsums.
    destruct (fold_left _ (combine a b) (0, 0, 0)) as [[dotProduct normA] normB].
    destruct Hsums as [Hdot Hnorm].
    apply div_zeroOrNaN; [assumption|].
    apply mul_positive_zero_r. now apply sqrt_positive_zero.
Qed.

(** C4. The similarity at a zero vector is NaN, not 0: the division is 0 by 0.
    This holds for every pair of vectors of one length of which one is all
    zeros, and it is evaluated here at a literal zero vector and at the
    embedding of the empty query, which is the zero vector.  NaN fails the
    comparison with the threshold [0.00], which a similarity of 0 passes, so
    under that threshold the stored chunk is left out of the context of the
    empty query. *)
Theorem cosineSimilarity_zero_vector_is_nan :
  let zeroVector := createSimpleEmbedding asciiToLowerCase [] in
  let stored := createSimpleEmbedding asciiToLowerCase (str "lazy dog") in
  let threshold := thresholdOf (configOf (Some 3%Z) (Some 0%Z)) in
  (forall a b : list float,
      length a = length b ->
      Forall (eq 0) a \/ Forall (eq 0) b ->
      PrimFloat.is_nan (cosineSimilarity a b) = true)
  /\ PrimFloat.is_nan (cosineSimilarity [0; 0] [1; 2]) = true
  /\ zeroVector = repeat 0 128
  /\ length stored = 128%nat
  /\ PrimFloat.is_nan (cosineSimilarity zeroVector stored) = true
  /\ (threshold <=? cosineSimilarity zeroVector stored) = false
  /\ (threshold <=? 0) = true
  /\ retrieveRelevantContext asciiToLowerCase 3 [] zeroThreshold
     = (Return None, zeroThreshold).
Proof.
  split; [exact cosineSimilarity_zero_vector_nan|].
  vm_compute. repeat split; reflexivity.
Qed.

(* ----------------------------------------------------------------- *)
(** ** The storage helpers *)

Lemma stableSort_In (A : Type) (after : A -> A -> bool) (l : list A) (x : A) :
  In x (stableSort after l) <-> In x l.
Proof.
  assert (Hins : forall a l', In x (insertBy after a l') <-> x = a \/ In x l').
  { intros a l'. induction l' as [|y l' IH]; simpl.
    - intuition.
    - destruct (after a y); simpl; rewrite ?IH; intuition. }
  induction l as [|a l IH]; simpl; [reflexivity|].
  rewrite Hins, IH. intuition.
Qed.




(* ----------------------------------------------------------------- *)
(** ** Deleting a document *)




(* ----------------------------------------------------------------- *)
(** ** The retriever *)

(** C1, the claim as stated fails: without a database handle
    [getOrCreateRagConfig] throws, and with a handle whose next query is
    rejected it throws the driver's error; in both worlds
    [retrieveRelevantContext] returns [null] instead of throwing. *)
Lemma retrieveRelevantContext_swallows_storage_errors :
  fst (getOrCreateRagConfig 3 offline) = Throw DatabaseNotAvailable
  /\ fst (retrieveRelevantContext asciiToLowerCase 3 (str "lazy dog") offline)
     = Return None
  /\ fst (getOrCreateRagConfig 3 unreachable) = Throw (QueryFailed 2006)
  /\ fst (retrieveRelevantContext asciiToLowerCase 3 (str "lazy dog") unreachable)
     = Return None.
Proof.
  vm_compute. repeat split; reflexivity.
Qed.

(** C1, amended. [retrieveRelevantContext] never throws: it always returns a
    value, and when a storage call inside it throws (loading the
    configuration, or scanning the agent's chunks) the error is caught and the
    value returned is [null], in the world the failed call left. *)
Theorem retrieveRelevantContext_never_throws
    (toLowerCase : jsString -> jsString) (agentId : Z) (query : jsString)
    (w : World) :
  (exists result w',
      retrieveRelevantContext toLowerCase agentId query w = (Return result, w'))
  /\ (forall e w1,
        getOrCreateRagConfig agentId w = (Throw e, w1) ->
        retrieveRelevantContext toLowerCase agentId query w = (Return None, w1))
  /\ (forall config w1 e w2,
        getOrCreateRagConfig agentId w = (Return (Some config), w1) ->
        RagConfiguration.enabled config = 1%Z ->
        getVectorEmbeddingsByAgentId agentId w1 = (Throw e, w2) ->
        retrieveRelevantContext toLowerCase agentId query w = (Return None, w2)).
Proof.
  split; [|split].
  - unfold retrieveRelevantContext, tryCatch.
    match goal with |- context [match ?body w with _ => _ end] =>
      destruct (body w) as [[result|e] w'] end.
    + now exists result, w'.
    + now exists None, w'.
  - intros e w1 Hconfig.
    unfold retrieveRelevantContext, tryCatch, bind. now rewrite Hconfig.
  - intros config w1 e w2 Hconfig Henabled Hscan.
    unfold retrieveRelevantContext, tryCatch, bind. rewrite Hconfig. simpl.
    unfold ret at 1. rewrite Henabled. simpl. now rewrite Hscan.
Qed.

(** *** The order of binary64 numbers and the sign of a difference *)

Section FloatOrder.

Local Open Scope Z_scope.

Lemma digits2_pos_bounds (m : positive) :
  2 ^ Zpos (digits2_pos m) <= 2 * Zpos m /\ Zpos m < 2 ^ Zpos (digits2_pos m).
Proof.
  induction m as [m IH|m IH|]; simpl digits2_pos.
  - rewrite Pos2Z.inj_succ, Z.pow_succ_r by lia. lia.
  - rewrite Pos2Z.inj_succ, Z.pow_succ_r by lia. lia.
  - simpl. lia.
Qed.

Lemma bounded_range (m : positive) (e : Z) :
  bounded prec emax m e = true ->
  Z.max (Zpos (digits2_pos m) + e - 53) (-1074) = e /\ e <= 971.
Proof.
  unfold bounded, canonical_mantissa, fexp, emin, prec, emax.
  rewrite andb_true_iff, Z.eqb_eq, Z.leb_le. simpl. lia.
Qed.

Lemma pow2_pos (n : Z) : 0 <= n -> 0 < 2 ^ n.
Proof. intros. apply Z.pow_pos_nonneg; lia. Qed.

Lemma pow2_split (a b : Z) : 0 <= a -> 0 <= b -> 2 ^ (a + b) = 2 ^ a * 2 ^ b.
Proof. intros. apply Z.pow_add_r; assumption. Qed.

(** A finite datum lies strictly between 0 and [beyond]. *)
Lemma place_finite (m : positive) (e : Z) :
  bounded prec emax m e = true ->
  0 < Zpos m * 2 ^ (e + 1074) < beyond.
Proof.
  intros Hb. apply bounded_range in Hb. destruct Hb as [Hcanon Hmax].
  destruct (digits2_pos_bounds m) as [_ Hm].
  assert (He : 0 <= e + 1074) by lia.
  assert (Hpow := pow2_pos He).
  split; [apply Z.mul_pos_pos; lia|].
  assert (Hd : Zpos (digits2_pos m) <= 53) by lia.
  assert (Hm53 : Zpos m < 2 ^ 53).
  { eapply Z.lt_le_trans; [exact Hm|]. apply Z.pow_le_mono_r; lia. }
  assert (Hle : 2 ^ (e + 1074) <= 2 ^ 2045) by (apply Z.pow_le_mono_r; lia).
  unfold beyond. replace 2100 with (55 + 2045) by lia.
  rewrite (@pow2_split 55 2045) by lia.
  assert (0 < 2 ^ 2045) by (apply pow2_pos; lia).
  apply Z.lt_le_trans with (2 ^ 53 * 2 ^ (e + 1074)).
  - apply Z.mul_lt_mono_pos_r; assumption.
  - apply Z.mul_le_mono_nonneg; lia.
Qed.

(** Canonical data are ordered by exponent first, then by mantissa. *)
Lemma place_lt (m1 m2 : positive) (e1 e2 : Z) :
  bounded prec emax m1 e1 = true ->
  bounded prec emax m2 e2 = true ->
  e1 < e2 \/ (e1 = e2 /\ (m1 < m2)%positive) ->
  Zpos m1 * 2 ^ (e1 + 1074) < Zpos m2 * 2 ^ (e2 + 1074).
Proof.
  intros Hb1 Hb2 Horder.
  apply bounded_range in Hb1. destruct Hb1 as [Hc1 _].
  apply bounded_range in Hb2. destruct Hb2 as [Hc2 _].
  assert (Hpow : 0 < 2 ^ (e1 + 1074)) by (apply pow2_pos; lia).
  destruct Horder as [Hlt|[<- Hlt]].
  - destruct (digits2_pos_bounds m1) as [_ Hm1].
    destruct (digits2_pos_bounds m2) as [Hm2 _].
    replace (Zpos (digits2_pos m2)) with 53 in Hm2 by lia.
    assert (Hm53 : Zpos m1 < 2 ^ 53).
    { eapply Z.lt_le_trans; [exact Hm1|]. apply Z.pow_le_mono_r; lia. }
    replace (e2 + 1074) with ((e2 - e1 - 1) + 1 + (e1 + 1074)) by lia.
    rewrite (@pow2_split (e2 - e1 - 1 + 1) (e1 + 1074)), (@pow2_split (e2 - e1 - 1) 1) by lia.
    assert (Hk : 0 < 2 ^ (e2 - e1 - 1)) by (apply pow2_pos; lia).
    change (2 ^ 1) with 2.
    apply Z.lt_le_trans with (2 ^ 53 * 2 ^ (e1 + 1074)).
    + apply Z.mul_lt_mono_pos_r; assumption.
    + rewrite Z.mul_assoc. apply Z.mul_le_mono_nonneg_r; [lia|]. nia.
  - apply Z.mul_lt_mono_pos_r; [assumption|]. exact Hlt.
Qed.

Lemma SFcompare_place (x y : spec_float) :
  valid_binary x = true -> valid_binary y = true ->
  x <> S754_nan -> y <> S754_nan ->
  SFcompare x y = Some (place x ?= place y).
Proof.
  intros Hx Hy Hnx Hny.
  assert (Hbeyond : 0 < beyond) by (apply pow2_pos; lia).
  destruct x as [sx|sx| |sx mx ex]; [| |contradiction|];
    (destruct y as [sy|sy| |sy my ey]; [| |contradiction|]);
    simpl in Hx, Hy.
  all: try (pose proof (place_finite _ _ Hx) as Hpx).
  all: try (pose proof (place_finite _ _ Hy) as Hpy).
  all: unfold SFcompare, place, cond_Zopp.
  all: try (destruct sx); try (destruct sy); f_equal; symmetry.
  all: try (apply Z.compare_eq_iff; lia).
  all: try (apply Z.compare_lt_iff; lia).
  all: try (apply Z.compare_gt_iff; lia).
  - (* two negative finite data *)
    rewrite Z.compare_opp.
    destruct (Z.compare_spec ex ey) as [->|Hlt|Hgt].
    + change (Pos.compare_cont Eq mx my) with (mx ?= my)%positive.
      destruct (Pos.compare_spec mx my) as [->|Hm|Hm]; simpl.
      * apply Z.compare_eq_iff. reflexivity.
      * apply Z.compare_gt_iff. apply place_lt; auto.
      * apply Z.compare_lt_iff. apply place_lt; auto.
    + apply Z.compare_gt_iff. apply place_lt; auto.
    + apply Z.compare_lt_iff. apply place_lt; auto.
  - (* two positive finite data *)
    destruct (Z.compare_spec ex ey) as [->|Hlt|Hgt].
    + change (Pos.compare_cont Eq mx my) with (mx ?= my)%positive.
      destruct (Pos.compare_spec mx my) as [->|Hm|Hm]; simpl.
      * apply Z.compare_eq_iff. reflexivity.
      * apply Z.compare_lt_iff. apply place_lt; auto.
      * apply Z.compare_gt_iff. apply place_lt; auto.
    + apply Z.compare_lt_iff. apply place_lt; auto.
    + apply Z.compare_gt_iff. apply place_lt; auto.
Qed.

(** *** Rounding keeps the sign of a difference *)

Lemma iter_xO_pow (m d : positive) :
  Zpos (Pos.iter xO m d) = Zpos m * 2 ^ Zpos d.
Proof.
  induction d as [|d IH] using Pos.peano_ind.
  - simpl. lia.
  - rewrite Pos.iter_succ, Pos2Z.inj_xO, IH, Pos2Z.inj_succ, Z.pow_succ_r by lia.
    lia.
Qed.

Lemma shl_align_fst (m : positive) (e e' : Z) :
  e' <= e -> Zpos (fst (shl_align m e e')) = Zpos m * 2 ^ (e - e').
Proof.
  intros Hle. unfold shl_align.
  destruct (e' - e) as [|d|d] eqn:Hd.
  - replace (e - e') with 0 by lia. simpl. lia.
  - lia.
  - replace (e - e') with (Zpos d) by lia. simpl fst. apply iter_xO_pow.
Qed.

Lemma shl_align_snd (m : positive) (e e' : Z) :
  snd (shl_align m e e') = Z.min e e'.
Proof.
  unfold shl_align. destruct (e' - e) as [|d|d] eqn:Hd; simpl; lia.
Qed.

Lemma shr_1_m (mrs : shr_record) :
  0 <= shr_m mrs -> shr_m (shr_1 mrs) = shr_m mrs / 2.
Proof.
  destruct mrs as [m r s]. simpl. intros Hm.
  rewrite <- Z.div2_div.
  destruct m as [|[p|p|]|p]; try reflexivity. lia.
Qed.

Lemma iter_shr_1_m (p : positive) (mrs : shr_record) :
  0 <= shr_m mrs ->
  shr_m (iter_pos shr_1 p mrs) = shr_m mrs / 2 ^ Zpos p.
Proof.
  revert mrs. induction p as [p IH|p IH|]; intros mrs Hm; simpl iter_pos.
  - assert (H1 : 0 <= shr_m (shr_1 mrs)).
    { rewrite shr_1_m by assumption. apply Z.div_pos; lia. }
    assert (Hp : 0 < 2 ^ Zpos p) by (apply pow2_pos; lia).
    assert (H2 : 0 <= shr_m (iter_pos shr_1 p (shr_1 mrs))).
    { rewrite IH by assumption. apply Z.div_pos; lia. }
    rewrite IH, IH, shr_1_m by assumption.
    rewrite !Z.div_div by lia. f_equal.
    replace (Zpos p~1) with (1 + Zpos p + Zpos p) by lia.
    rewrite (@pow2_split (1 + Zpos p) (Zpos p)), (@pow2_split 1 (Zpos p)) by lia.
    change (2 ^ 1) with 2. lia.
  - assert (Hp : 0 < 2 ^ Zpos p) by (apply pow2_pos; lia).
    assert (H2 : 0 <= shr_m (iter_pos shr_1 p mrs)).
    { rewrite IH by assumption. apply Z.div_pos; lia. }
    rewrite IH, IH by assumption.
    rewrite !Z.div_div by lia. f_equal.
    replace (Zpos p~0) with (Zpos p + Zpos p) by lia.
    rewrite (@pow2_split (Zpos p) (Zpos p)) by lia. reflexivity.
  - rewrite shr_1_m by assumption. reflexivity.
Qed.

(** Shifting a positive mantissa down to the 53 bits of the format leaves it
    positive, and the exponent at or above the least one. *)
Lemma shr_fexp_positive (m e : Z) (l : location) :
  0 < m -> -1074 <= e ->
  0 < shr_m (fst (shr_fexp prec emax m e l))
  /\ -1074 <= snd (shr_fexp prec emax m e l).
Proof.
  intros Hm He. unfold shr_fexp, shr, fexp, SpecFloat.emin, prec, emax.
  assert (Hloc : shr_m (shr_record_of_loc m l) = m)
    by (destruct l as [|[]]; reflexivity).
  destruct m as [|q|q]; try lia. simpl Zdigits2.
  destruct (digits2_pos_bounds q) as [Hq _].
  destruct (Z.max (Zpos (digits2_pos q) + e - 53) (3 - 1024 - 53) - e)
    as [|p|p] eqn:Hn; simpl fst; simpl snd; try (rewrite Hloc; lia).
  rewrite iter_shr_1_m by (rewrite Hloc; lia). rewrite Hloc.
  split; [|lia].
  apply Z.div_str_pos. split; [apply pow2_pos; lia|].
  apply Z.le_trans with (2 ^ (Zpos (digits2_pos q) - 1)).
  - apply Z.pow_le_mono_r; lia.
  - assert (Hsplit : 2 ^ Zpos (digits2_pos q)
                     = 2 ^ 1 * 2 ^ (Zpos (digits2_pos q) - 1)).
    { rewrite <- pow2_split by lia. f_equal. lia. }
    change (2 ^ 1) with 2 in Hsplit. lia.
Qed.

(** A rounded positive mantissa is never a zero or NaN: the result carries
    the sign it was given. *)
Lemma binary_round_aux_sign (s : bool) (m e : Z) (l : location) :
  0 < m -> -1074 <= e ->
  SFcompare (S754_zero false) (binary_round_aux prec emax s m e l)
  = Some (if s then Gt else Lt).
Proof.
  intros Hm He. unfold binary_round_aux.
  destruct (shr_fexp_positive l Hm He) as [Hm1 He1].
  destruct (shr_fexp prec emax m e l) as [mrs1 e1]. simpl in Hm1, He1.
  assert (Hround : 0 < round_nearest_even (shr_m mrs1) (loc_of_shr_record mrs1)).
  { unfold round_nearest_even.
    destruct (loc_of_shr_record mrs1) as [|[]]; try lia.
    destruct (Z.even (shr_m mrs1)); lia. }
  destruct (shr_fexp_positive loc_Exact Hround He1) as [Hm2 _].
  destruct (shr_fexp prec emax _ e1 loc_Exact) as [mrs2 e2]. simpl in Hm2.
  destruct (shr_m mrs2) as [|q|q]; try lia.
  destruct (e2 <=? emax - prec); reflexivity.
Qed.

Lemma binary_normalize_sign (d e : Z) :
  -1074 <= e ->
  SFcompare (S754_zero false) (binary_normalize prec emax d e false)
  = Some (0 ?= d).
Proof.
  intros He.
  assert (Hround : forall s m,
             SFcompare (S754_zero false) (binary_round prec emax s m e)
             = Some (if s then Gt else Lt)).
  { intros s m. unfold binary_round.
    pose proof (shl_align_snd m e (fexp prec emax (Zpos (digits2_pos m) + e)))
      as Hsnd.
    destruct (shl_align m e _) as [mz ez]. simpl in Hsnd.
    apply binary_round_aux_sign; [lia|].
    subst ez. unfold fexp, SpecFloat.emin, prec, emax. lia. }
  destruct d as [|m|m]; simpl binary_normalize;
    [reflexivity|apply Hround|apply Hround].
Qed.

(** The sign of a difference is the order of the two numbers; the difference
    of two equal infinities is NaN. *)
Lemma SFsub_positive (x y : spec_float) :
  valid_binary x = true -> valid_binary y = true ->
  x <> S754_nan -> y <> S754_nan ->
  SFltb (S754_zero false) (SFsub prec emax y x) = (place x <? place y).
Proof.
  intros Hx Hy Hnx Hny.
  assert (Hbeyond : 0 < beyond) by (apply pow2_pos; lia).
  destruct x as [sx|sx| |sx mx ex]; [| |contradiction|];
    (destruct y as [sy|sy| |sy my ey]; [| |contradiction|]);
    simpl in Hx, Hy.
  all: try (pose proof (place_finite _ _ Hx) as Hpx).
  all: try (pose proof (place_finite _ _ Hy) as Hpy).
  9: {
    unfold SFltb, SFsub. rewrite binary_normalize_sign.
    2: { apply bounded_range in Hx, Hy. lia. }
    rewrite !shl_align_fst by lia.
    unfold Z.ltb.
    set (ez := Z.min ey ex).
    assert (Hez : -1074 <= ez) by (apply bounded_range in Hx, Hy; lia).
    assert (Hunit : 0 < 2 ^ (ez + 1074)) by (apply pow2_pos; lia).
    assert (Hmx : Zpos mx * 2 ^ (ex + 1074)
                  = Zpos mx * 2 ^ (ex - ez) * 2 ^ (ez + 1074)).
    { rewrite <- Z.mul_assoc, <- pow2_split by lia. do 2 f_equal. lia. }
    assert (Hmy : Zpos my * 2 ^ (ey + 1074)
                  = Zpos my * 2 ^ (ey - ez) * 2 ^ (ez + 1074)).
    { rewrite <- Z.mul_assoc, <- pow2_split by lia. do 2 f_equal. lia. }
    unfold place. rewrite Hmx, Hmy.
    generalize (Zpos mx * 2 ^ (ex - ez)) (Zpos my * 2 ^ (ey - ez)).
    intros a b.
    assert (Hscale : forall sa sb,
               cond_Zopp sb (b * 2 ^ (ez + 1074))
               - cond_Zopp sa (a * 2 ^ (ez + 1074))
               = (cond_Zopp sb b - cond_Zopp sa a) * 2 ^ (ez + 1074))
      by (intros [] []; simpl; lia).
    destruct (Z.compare_spec 0 (cond_Zopp sy b - cond_Zopp sx a)) as [H|H|H];
      destruct (Z.compare_spec (cond_Zopp sx (a * 2 ^ (ez + 1074)))
                  (cond_Zopp sy (b * 2 ^ (ez + 1074)))) as [H'|H'|H'];
      try reflexivity; exfalso;
      specialize (Hscale sx sy); nia. }
  all: unfold SFltb, SFsub, SFcompare, place, cond_Zopp.
  all: try (destruct sx); try (destruct sy); cbv [negb].
  all: symmetry; first [apply Z.ltb_lt; lia|apply Z.ltb_ge; lia].
Qed.

(** At numbers, the comparisons of binary64 are those of the places. *)
Lemma leb_isNumber (x y : float) :
  (x <=? y)%float = true -> isNumber x /\ isNumber y.
Proof.
  rewrite leb_spec. unfold SFleb, isNumber.
  destruct (Prim2SF x), (Prim2SF y); simpl; try discriminate;
    intros _; split; discriminate.
Qed.

Lemma eqb_isNumber (x y : float) :
  (x =? y)%float = true -> isNumber x /\ isNumber y.
Proof.
  rewrite eqb_spec. unfold SFeqb, isNumber.
  destruct (Prim2SF x), (Prim2SF y); simpl; try discriminate;
    intros _; split; discriminate.
Qed.

Lemma leb_place (x y : float) :
  isNumber x -> isNumber y -> (x <=? y)%float = (placeOf x <=? placeOf y).
Proof.
  intros Hx Hy. rewrite leb_spec. unfold SFleb, placeOf.
  rewrite SFcompare_place by (auto using Prim2SF_valid).
  unfold Z.leb. destruct (place (Prim2SF x) ?= place (Prim2SF y)); reflexivity.
Qed.

Lemma eqb_place (x y : float) :
  isNumber x -> isNumber y -> (x =? y)%float = (placeOf x =? placeOf y).
Proof.
  intros Hx Hy. rewrite eqb_spec. unfold SFeqb, placeOf.
  rewrite SFcompare_place by (auto using Prim2SF_valid).
  rewrite Z.eqb_compare. reflexivity.
Qed.

(** [b - a > 0], the test of the comparator, holds exactly when [a] is the
    smaller number. *)
Lemma sub_positive (x y : float) :
  isNumber x -> isNumber y -> (0 <? y - x)%float = (placeOf x <? placeOf y).
Proof.
  intros Hx Hy. rewrite ltb_spec, sub_spec.
  change (Prim2SF 0) with (S754_zero false).
  apply SFsub_positive; auto using Prim2SF_valid.
Qed.

End FloatOrder.

Section OrderedPairs.

Variable A : Type.
Variable R : A -> A -> Prop.

Lemma Forall_insertBy (after : A -> A -> bool) (P : A -> Prop) (a : A)
    (l : list A) :
  Forall P (insertBy after a l) <-> P a /\ Forall P l.
Proof.
  induction l as [|y l IH]; simpl.
  - split; [intros H; inversion H; auto|intros [H _]; auto].
  - destruct (after a y).
    + split.
      * intros H. inversion H as [|? ? Hy Hrest]; subst.
        apply IH in Hrest. destruct Hrest. auto.
      * intros [Ha Hl]. inversion Hl; subst. constructor; [assumption|].
        apply IH. auto.
    + split; [intros H; inversion H; auto|intros [Ha Hl]; auto].
Qed.

(** Inserting [a], which stood before all of [l], keeps every ordered pair
    in [R] as long as the elements [a] moves past allow it. *)
Lemma insertBy_pairs (after : A -> A -> bool) (a : A) (l : list A) :
  (forall y, after a y = true -> R y a) ->
  Forall (R a) l ->
  ForallOrdPairs R l ->
  ForallOrdPairs R (insertBy after a l).
Proof.
  intros Hswap. induction l as [|y l IH]; intros Ha Hl; simpl.
  - constructor; [constructor|constructor].
  - inversion Ha as [|? ? Hay Hal]; subst.
    inversion Hl as [|? ? Hy Hrest]; subst.
    destruct (after a y) eqn:Hafter.
    + constructor; [|apply IH; assumption].
      apply Forall_insertBy. split; [apply Hswap; assumption|assumption].
    + constructor; [constructor; assumption|assumption].
Qed.

(** A stable sort only swaps the pairs its order separates. *)
Lemma stableSort_pairs (after : A -> A -> bool) (l : list A) :
  (forall x y, after y x = true -> R x y) ->
  ForallOrdPairs R l ->
  ForallOrdPairs R (stableSort after l).
Proof.
  intros Hswap. induction l as [|a l IH]; intros Hl; simpl; [constructor|].
  inversion Hl as [|? ? Ha Hrest]; subst.
  apply insertBy_pairs; [intros y; apply Hswap| |apply IH; assumption].
  apply Forall_forall. intros y Hy. apply stableSort_In in Hy.
  revert y Hy. apply Forall_forall. assumption.
Qed.

Lemma ForallOrdPairs_filter (p : A -> bool) (l : list A) :
  ForallOrdPairs R l -> ForallOrdPairs R (filter p l).
Proof.
  induction 1 as [|a l Ha Hl IH]; simpl; [constructor|].
  destruct (p a); [|assumption].
  constructor; [|assumption].
  apply Forall_forall. intros y Hy. apply filter_In in Hy.
  destruct Hy as [Hy _]. revert y Hy. apply Forall_forall. assumption.
Qed.

Lemma ForallOrdPairs_firstn (n : nat) (l : list A) :
  ForallOrdPairs R l -> ForallOrdPairs R (firstn n l).
Proof.
  intros Hl. revert n.
  induction Hl as [|a l Ha Hl IH]; intros [|n]; simpl; try constructor.
  - apply Forall_forall. intros y Hy. apply (In_nth _ _ y) in Hy.
    destruct Hy as (i & Hi & <-).
    rewrite length_firstn in Hi. rewrite nth_firstn.
    destruct (Nat.ltb_spec i n) as [_|]; [|lia].
    revert Ha. rewrite Forall_forall. intros Ha. apply Ha.
    apply nth_In. lia.
  - apply IH.
Qed.

End OrderedPairs.

Lemma ForallOrdPairs_map (A B : Type) (f : A -> B) (R : B -> B -> Prop)
    (l : list A) :
  ForallOrdPairs (fun x y => R (f x) (f y)) l -> ForallOrdPairs R (map f l).
Proof.
  induction 1 as [|a l Ha Hl IH]; simpl; constructor; [|assumption].
  apply Forall_map. assumption.
Qed.

Section SortedByKey.

Variable A : Type.
Variable key : A -> Z.
Variable after : A -> A -> bool.

(** Inserting into a list that descends by [key], with an order that is the
    strict order of the keys on the elements at hand, gives a list that
    descends by [key]. *)
Lemma insertBy_descending (a : A) (l : list A) :
  (forall y, In y l -> after a y = (key a <? key y)%Z) ->
  ForallOrdPairs (fun x y => (key y <= key x)%Z) l ->
  ForallOrdPairs (fun x y => (key y <= key x)%Z) (insertBy after a l).
Proof.
  induction l as [|y l IH]; intros Hafter Hl; simpl.
  - constructor; constructor.
  - inversion Hl as [|? ? Hy Hrest]; subst.
    rewrite (Hafter y) by now left.
    destruct (Z.ltb_spec (key a) (key y)) as [Hlt|Hge].
    + constructor.
      * apply Forall_insertBy. split; [lia|assumption].
      * apply IH; [|assumption]. intros z Hz. apply Hafter. now right.
    + constructor; [|assumption].
      constructor; [assumption|].
      revert Hy. apply Forall_impl. intros z Hz. lia.
Qed.

Lemma stableSort_descending (l : list A) :
  (forall x y, In x l -> In y l -> after x y = (key x <? key y)%Z) ->
  ForallOrdPairs (fun x y => (key y <= key x)%Z) (stableSort after l).
Proof.
  induction l as [|a l IH]; intros Hafter; simpl; [constructor|].
  apply insertBy_descending.
  - intros y Hy. apply stableSort_In in Hy.
    apply Hafter; [now left|now right].
  - apply IH. intros x y Hx Hy. apply Hafter; now right.
Qed.

End SortedByKey.

Section Stability.

Variable A : Type.
Variable p : A -> bool.
Variable after : A -> A -> bool.

(** The elements of a class [p] that the order does not separate keep their
    places relative to one another. *)
Lemma insertBy_filter (a : A) (l : list A) :
  (forall y, p a = true -> p y = true -> after a y = false) ->
  filter p (insertBy after a l) = filter p (a :: l).
Proof.
  intros Hclass. induction l as [|y l IH]; [reflexivity|].
  simpl insertBy. destruct (after a y) eqn:Hafter; [|reflexivity].
  simpl in *. rewrite IH.
  destruct (p a) eqn:Ha, (p y) eqn:Hy; try reflexivity.
  rewrite (Hclass y eq_refl Hy) in Hafter. discriminate.
Qed.

Lemma stableSort_filter (l : list A) :
  (forall x y, p x = true -> p y = true -> after x y = false) ->
  filter p (stableSort after l) = filter p l.
Proof.
  intros Hclass. induction l as [|a l IH]; [reflexivity|].
  simpl stableSort. rewrite insertBy_filter by (intros y; apply Hclass).
  simpl. now rewrite IH.
Qed.

(** What a prefix holds of a class is a prefix of the class. *)
Lemma filter_firstn (n : nat) (l : list A) :
  exists k, filter p (firstn n l) = firstn k (filter p l).
Proof.
  revert l. induction n as [|n IH]; intros [|a l]; simpl;
    try (exists 0%nat; reflexivity).
  destruct (IH l) as [k Hk]. rewrite Hk.
  destruct (p a); [exists (S k)|exists k]; reflexivity.
Qed.

End Stability.

Lemma ForallOrdPairs_among (A : Type) (P : A -> Prop) (R R' : A -> A -> Prop)
    (l : list A) :
  (forall x y, P x -> P y -> R x y -> R' x y) ->
  Forall P l -> ForallOrdPairs R l -> ForallOrdPairs R' l.
Proof.
  intros Himpl HP Hl.
  induction Hl as [|a l Ha Hl IH]; [constructor|].
  inversion HP as [|? ? HPa HPl]; subst.
  constructor; [|apply IH; assumption].
  rewrite Forall_forall in *. intros y Hy. apply Himpl; auto.
Qed.

(** From index 0, [slice] is a prefix. *)
Lemma slice_prefix (A : Type) (l : list A) (end_ : Z) :
  slice l 0 end_
  = firstn (Z.to_nat (if (end_ <? 0)%Z
                      then Z.max (Z.of_nat (length l) + end_) 0
                      else Z.min end_ (Z.of_nat (length l)))) l.
Proof.
  assert (Hfrom : Z.min 0 (Z.of_nat (length l)) = 0%Z) by lia.
  unfold slice. change (0 <? 0)%Z with false. cbv beta iota zeta.
  now rewrite Hfrom, Z.sub_0_r.
Qed.

Lemma In_firstn (A : Type) (n : nat) (l : list A) (x : A) :
  In x (firstn n l) -> In x l.
Proof.
  revert l. induction n as [|n IH]; intros [|a l]; simpl; try tauto.
  intros [->|Hx]; [now left|right; now apply IH].
Qed.

(** The scan hands the newest chunk over first. *)
Lemma orderByCreatedAtDesc_newest_first (rows : list VectorEmbedding.t) :
  ForallOrdPairs
    (fun x y => (VectorEmbedding.createdAt y <= VectorEmbedding.createdAt x)%Z)
    (orderByCreatedAtDesc rows).
Proof.
  unfold orderByCreatedAtDesc.
  induction rows as [|a rows IH]; simpl; [constructor|].
  set (after := fun x y =>
         (VectorEmbedding.createdAt x <? VectorEmbedding.createdAt y)%Z) in *.
  revert IH. generalize (stableSort after rows). intros l Hl.
  induction Hl as [|y l Hy Hl IH]; simpl.
  - constructor; constructor.
  - destruct (after a y) eqn:Hafter; unfold after in Hafter.
    + apply Z.ltb_lt in Hafter. constructor; [|assumption].
      apply Forall_insertBy. split; [lia|assumption].
    + apply Z.ltb_ge in Hafter. constructor; [|constructor; assumption].
      constructor; [assumption|].
      revert Hy. apply Forall_impl. intros z Hz. lia.
Qed.

Lemma getVectorEmbeddingsByAgentId_newest_first (agentId : Z) (w w' : World)
    (rows : list VectorEmbedding.t) :
  getVectorEmbeddingsByAgentId agentId w = (Return rows, w') ->
  ForallOrdPairs
    (fun x y => (VectorEmbedding.createdAt y <= VectorEmbedding.createdAt x)%Z)
    rows.
Proof.
  destruct w as [on documents configs chunks next time fates].
  unfold getVectorEmbeddingsByAgentId. run_async.
  destruct on; simpl.
  - destruct (hd None fates); simpl; [discriminate|].
    intros [= <- <-]. apply orderByCreatedAtDesc_newest_first.
  - intros [= <- <-]. constructor.
Qed.

(** A context that is not [null] is the joined contents of
    [scoredEmbeddings], computed from the configuration loaded for the agent
    and from the rows its scan returned. *)
Lemma retrieveRelevantContext_some (toLowerCase : jsString -> jsString)
    (agentId : Z) (query context : jsString) (w w' : World) :
  retrieveRelevantContext toLowerCase agentId query w = (Return (Some context), w') ->
  exists config w1 rows,
    getOrCreateRagConfig agentId w = (Return (Some config), w1)
    /\ getVectorEmbeddingsByAgentId agentId w1 = (Return rows, w')
    /\ context
       = join separator
           (map (fun item => VectorEmbedding.content (embedding item))
              (scoredEmbeddings config (createSimpleEmbedding toLowerCase query)
                 rows)).
Proof.
  unfold retrieveRelevantContext, tryCatch, bind, defined.
  destruct (getOrCreateRagConfig agentId w) as [[[config|]|e] w1] eqn:Hconfig;
    unfold ret, throw; try discriminate.
  destruct (negb (RagConfiguration.enabled config =? 1)%Z); [discriminate|].
  destruct (getVectorEmbeddingsByAgentId agentId w1) as [[rows|e] w2] eqn:Hscan;
    [|discriminate].
  destruct (length rows =? 0)%nat; [discriminate|].
  destruct (length (scoredEmbeddings _ _ _) =? 0)%nat; [discriminate|].
  intros [= <- <-]. exists config, w1, rows. auto.
Qed.

(** C5, the claim as stated fails: ["listen"] was stored before ["silent"],
    both have the same similarity to the query ["enlist"] and pass the
    threshold, and the context puts ["silent"], the later one, first. *)
Lemma equal_scores_latest_chunk_first :
  let queryEmbedding := createSimpleEmbedding asciiToLowerCase (str "enlist") in
  let earlier := chunkRow 4 0 (str "listen") 95 in
  let later := chunkRow 5 1 (str "silent") 97 in
  vectorEmbeddings anagrams = [earlier; later]
  /\ score (scoreAgainst queryEmbedding earlier)
     = score (scoreAgainst queryEmbedding later)
  /\ (thresholdOf (configOf (Some 3%Z) (Some 70%Z))
      <=? score (scoreAgainst queryEmbedding earlier)) = true
  /\ fst (retrieveRelevantContext asciiToLowerCase 3 (str "enlist") anagrams)
     = Return (Some (str "silent" ++ separator ++ str "listen")).
Proof.
  vm_compute. repeat split; reflexivity.
Qed.

(** The scores that pass the threshold are numbers: a comparison with NaN is
    false. *)
Lemma candidates_are_numbers (config : RagConfiguration.t)
    (queryEmbedding : list float) (rows : list VectorEmbedding.t) :
  Forall (fun item => isNumber (score item))
    (filter (fun item => thresholdOf config <=? score item)
       (map (scoreAgainst queryEmbedding) rows)).
Proof.
  apply Forall_forall. intros item Hitem. apply filter_In in Hitem.
  destruct Hitem as [_ Hpass]. apply leb_isNumber in Hpass. apply Hpass.
Qed.

(** C5, amended. The retriever sorts the scored chunks that pass the threshold
    descending by similarity score and breaks ties by the order of the
    per-agent scan, which is newest first: in a context that is not [null],
    built from the ranked chunks, every ranked chunk passes the threshold; a
    ranked chunk never stands before one of a higher score; of two ranked
    chunks with equal scores the one that stands first was not created before
    the other; and the ranked chunks of any one score are the first of the
    scanned chunks of that score that pass the threshold, in the order of the
    scan. *)
Theorem ranked_by_score_ties_in_scan_order (toLowerCase : jsString -> jsString)
    (agentId : Z) (query : jsString) (w : World) :
  match retrieveRelevantContext toLowerCase agentId query w with
  | (Return (Some context), w') =>
      exists config w1 rows ranked,
        getOrCreateRagConfig agentId w = (Return (Some config), w1)
        /\ getVectorEmbeddingsByAgentId agentId w1 = (Return rows, w')
        /\ ranked
           = scoredEmbeddings config (createSimpleEmbedding toLowerCase query) rows
        /\ context
           = join separator
               (map (fun item => VectorEmbedding.content (embedding item)) ranked)
        /\ Forall (fun item => (thresholdOf config <=? score item) = true) ranked
        /\ ForallOrdPairs (fun a b => (score b <=? score a) = true) ranked
        /\ ForallOrdPairs
             (fun a b =>
                (score a =? score b) = true ->
                (VectorEmbedding.createdAt (embedding b)
                 <= VectorEmbedding.createdAt (embedding a))%Z)
             ranked
        /\ forall s : float,
             exists k,
               filter (fun item => score item =? s) ranked
               = firstn k
                   (filter (fun item => score item =? s)
                      (filter (fun item => thresholdOf config <=? score item)
                         (map (scoreAgainst
                                 (createSimpleEmbedding toLowerCase query))
                            rows)))
  | _ => True
  end.
Proof.
  destruct (retrieveRelevantContext toLowerCase agentId query w)
    as [[[context|]|e] w'] eqn:Hrun; try exact I.
  destruct (retrieveRelevantContext_some _ _ _ _ Hrun)
    as (config & w1 & rows & Hconfig & Hscan & Hcontext).
  exists config, w1, rows. eexists.
  split; [eassumption|]. split; [eassumption|]. split; [reflexivity|].
  split; [eassumption|].
  unfold scoredEmbeddings, Rag.sort. rewrite slice_prefix.
  set (queryEmbedding := createSimpleEmbedding toLowerCase query).
  pose proof (candidates_are_numbers config queryEmbedding rows) as Hnumbers.
  set (candidates := filter (fun item => thresholdOf config <=? score item)
                       (map (scoreAgainst queryEmbedding) rows)) in *.
  set (after := fun a b => 0 <? byScoreDesc a b).
  assert (Hafter : forall x y, In x candidates -> In y candidates ->
                               after x y
                               = (placeOf (score x) <? placeOf (score y))%Z).
  { intros x y Hx Hy. unfold after, byScoreDesc.
    rewrite Forall_forall in Hnumbers. apply sub_positive; auto. }
  assert (Hranked : forall n item,
             In item (firstn n (stableSort after candidates)) ->
             In item candidates).
  { intros n item Hitem. apply In_firstn in Hitem.
    now apply stableSort_In in Hitem. }
  split; [|split; [|split]].
  - (* the threshold *)
    apply Forall_forall. intros item Hitem. apply Hranked in Hitem.
    apply filter_In in Hitem. apply Hitem.
  - (* descending by score *)
    apply ForallOrdPairs_among
      with (P := fun item => isNumber (score item))
           (R := fun a b => (placeOf (score b) <= placeOf (score a))%Z).
    + intros x y Hx Hy Hle. rewrite leb_place by assumption.
      now apply Z.leb_le.
    + apply Forall_forall. intros item Hitem. apply Hranked in Hitem.
      revert item Hitem. apply Forall_forall. exact Hnumbers.
    + apply ForallOrdPairs_firstn.
      apply stableSort_descending with (key := fun item => placeOf (score item)).
      exact Hafter.
  - (* equal scores, newest first *)
    apply ForallOrdPairs_firstn. apply stableSort_pairs.
    + intros x y Hswap Htie. unfold after, byScoreDesc in Hswap.
      destruct (eqb_isNumber Htie) as [Hx Hy].
      rewrite eqb_place in Htie by assumption. apply Z.eqb_eq in Htie.
      rewrite sub_positive, Htie, Z.ltb_irrefl in Hswap by assumption.
      discriminate.
    + apply ForallOrdPairs_filter. apply ForallOrdPairs_map.
      apply getVectorEmbeddingsByAgentId_newest_first in Hscan.
      revert Hscan. clear.
      induction 1 as [|e rows He Hrows IH]; constructor; [|assumption].
      revert He. apply Forall_impl. intros e' Hle _.
      unfold scoreAgainst.
      destruct (VectorEmbedding.embedding e), (VectorEmbedding.embedding e');
        exact Hle.
  - (* equal scores, the order of the scan *)
    intros s.
    destruct (filter_firstn (fun item => score item =? s)
                (Z.to_nat
                   (if (orDefault (RagConfiguration.topK config) 3 <? 0)%Z
                    then Z.max (Z.of_nat (length (stableSort after candidates))
                                + orDefault (RagConfiguration.topK config) 3) 0
                    else Z.min (orDefault (RagConfiguration.topK config) 3)
                           (Z.of_nat (length (stableSort after candidates)))))
                (stableSort after candidates)) as [k Hk].
    exists k. rewrite Hk. f_equal. apply stableSort_filter.
    intros x y Hx Hy. unfold after, byScoreDesc.
    destruct (eqb_isNumber Hx) as [Hnx Hs].
    destruct (eqb_isNumber Hy) as [Hny _].
    rewrite eqb_place in Hx, Hy by assumption.
    apply Z.eqb_eq in Hx, Hy.
    rewrite sub_positive, Hx, Hy by assumption. apply Z.ltb_irrefl.
Qed.





(* ----------------------------------------------------------------- *)
(** ** The indexer *)

Lemma getOrCreateRagConfig_frame (agentId : Z) (w : World) :
  vectorEmbeddings (snd (getOrCreateRagConfig agentId w)) = vectorEmbeddings w
  /\ trainingDocuments (snd (getOrCreateRagConfig agentId w)) = trainingDocuments w
  /\ available (snd (getOrCreateRagConfig agentId w)) = available w
  /\ (forall c, fst (getOrCreateRagConfig agentId w) = Return c ->
                available w = true).
Proof.
  destruct w as [on documents configs chunks next time fates].
  unfold getOrCreateRagConfig. run_async.
  destruct on; simpl; [|repeat split; discriminate].
  destruct (hd None fates); simpl; [repeat split; discriminate|].
  destruct (filter _ configs); simpl; [|repeat split].
  destruct (hd None (tl fates)); simpl; [repeat split|].
  destruct (hd None (tl (tl fates))); simpl; repeat split.
Qed.

Lemma updateTrainingDocument_frame (id : Z) (data : TrainingDocument.partial)
    (w : World) :
  vectorEmbeddings (snd (updateTrainingDocument id data w)) = vectorEmbeddings w
  /\ available (snd (updateTrainingDocument id data w)) = available w.
Proof.
  destruct w as [on documents configs chunks next time fates].
  unfold updateTrainingDocument. run_async.
  destruct on; simpl; [|split; reflexivity].
  destruct (hd None fates); simpl; [split; reflexivity|].
  destruct (hd None (tl fates)); simpl; split; reflexivity.
Qed.

(** When its first query runs, the update writes the status into every row of
    the document; when the second runs too, it returns. *)
Lemma updateTrainingDocument_status (id : Z) (s : DocumentStatus)
    (count : option Z) (w : World) :
  available w = true ->
  hd None (rejections w) = None ->
  (forall d, In d (trainingDocuments
                     (snd (updateTrainingDocument id
                             (TrainingDocument.makePartial (Some s) count) w))) ->
             TrainingDocument.id d = id -> TrainingDocument.status d = s)
  /\ (hd None (tl (rejections w)) = None ->
      exists row,
        fst (updateTrainingDocument id
               (TrainingDocument.makePartial (Some s) count) w) = Return row).
Proof.
  destruct w as [on documents configs chunks next time fates]. simpl.
  intros -> Hfirst.
  unfold updateTrainingDocument. run_async. rewrite Hfirst. simpl.
  assert (Hrows : forall d,
             In d (map (fun d => if (TrainingDocument.id d =? id)%Z
                                 then applyPartial
                                        (TrainingDocument.makePartial (Some s) count)
                                        time d
                                 else d) documents) ->
             TrainingDocument.id d = id -> TrainingDocument.status d = s).
  { intros d Hd Hid. apply in_map_iff in Hd. destruct Hd as (d0 & <- & _).
    destruct (Z.eqb_spec (TrainingDocument.id d0) id) as [_|Hne];
      [reflexivity|contradiction]. }
  destruct (hd None (tl fates)); simpl; split; try exact Hrows.
  - discriminate.
  - intros _. eexists. reflexivity.
Qed.

Lemma createVectorEmbedding_appends (row : VectorEmbedding.insert) (w : World) :
  exists added,
    appends (VectorEmbedding.newDocumentId row) (VectorEmbedding.newAgentId row)
      w (snd (createVectorEmbedding row w)) added
    /\ trainingDocuments (snd (createVectorEmbedding row w)) = trainingDocuments w
    /\ (forall r, fst (createVectorEmbedding row w) = Return r ->
                  map VectorEmbedding.content added
                  = [VectorEmbedding.newContent row]).
Proof.
  destruct w as [on documents configs chunks next time fates].
  unfold createVectorEmbedding, appends. run_async.
  destruct on; simpl.
  - destruct (hd None fates); simpl.
    + exists []. rewrite app_nil_r. repeat split; [constructor|discriminate].
    + destruct (hd None (tl fates)); simpl; eexists [_];
        repeat split; try discriminate; repeat constructor.
  - exists []. rewrite app_nil_r. repeat split; [constructor|discriminate].
Qed.

Section Indexer.

Variable toLowerCase : jsString -> jsString.

Lemma embedChunks_appends (documentId agentId : Z) (chunks : list jsString)
    (i : Z) (w : World) :
  exists added,
    appends documentId agentId w
      (snd (embedChunks toLowerCase documentId agentId i chunks w)) added
    /\ trainingDocuments
         (snd (embedChunks toLowerCase documentId agentId i chunks w))
       = trainingDocuments w
    /\ (fst (embedChunks toLowerCase documentId agentId i chunks w) = Return tt ->
        map VectorEmbedding.content added = chunks).
Proof.
  revert i w. induction chunks as [|chunk rest IH]; intros i w; simpl.
  - exists []. unfold appends. rewrite app_nil_r.
    repeat split. constructor.
  - unfold bind.
    destruct (createVectorEmbedding_appends
                (VectorEmbedding.makeInsert documentId agentId i chunk
                   (createSimpleEmbedding toLowerCase chunk)
                   [("chunkSize"%string, Z.of_nat (length chunk))]) w)
      as (first & (Hrows & Hmine & Hon) & Hdocs & Hcontent).
    simpl in Hrows, Hmine, Hon.
    destruct (createVectorEmbedding _ w) as [[r|e] w1]; simpl in *.
    + destruct (IH (i + 1)%Z w1)
        as (later & (Hrows' & Hmine' & Hon') & Hdocs' & Hcontent').
      exists (first ++ later). unfold appends. repeat split.
      * rewrite Hrows', Hrows. now rewrite app_assoc.
      * apply Forall_app. split; assumption.
      * congruence.
      * congruence.
      * intros Hdone. rewrite map_app, (Hcontent r eq_refl), Hcontent' by assumption.
        reflexivity.
    + exists first. unfold appends. repeat split; try assumption. discriminate.
Qed.

End Indexer.

(** C3, the claim as stated fails: the document is processed twice; the
    second run returns, and the chunk table then holds the three chunks of
    the first run followed by the same three chunks of the second. *)
Lemma reprocessing_duplicates_chunks :
  let first := processDocumentForRAG asciiToLowerCase 1 3 fox uploaded in
  let second := processDocumentForRAG asciiToLowerCase 1 3 fox (snd first) in
  fst first = Return tt
  /\ map VectorEmbedding.content (vectorEmbeddings (snd first))
     = chunkText fox 20 5
  /\ fst second = Return tt
  /\ map VectorEmbedding.content (vectorEmbeddings (snd second))
     = chunkText fox 20 5 ++ chunkText fox 20 5
  /\ map VectorEmbedding.documentId (vectorEmbeddings (snd second))
     = [1; 1; 1; 1; 1; 1]%Z.
Proof.
  vm_compute. repeat split; reflexivity.
Qed.

Section IndexerRuns.

Variable toLowerCase : jsString -> jsString.

Lemma indexChunks_appends (config : RagConfiguration.t) (documentId agentId : Z)
    (content : jsString) (w : World) :
  exists added,
    appends documentId agentId w
      (snd (indexChunks toLowerCase config documentId agentId content w)) added
    /\ (fst (indexChunks toLowerCase config documentId agentId content w)
        = Return tt ->
        map VectorEmbedding.content added
        = chunkText content
            (orDefault (RagConfiguration.chunkSize config) 512)
            (orDefault (RagConfiguration.chunkOverlap config) 50)).
Proof.
  unfold indexChunks, bind.
  set (chunks := chunkText content _ _).
  destruct (embedChunks_appends toLowerCase documentId agentId chunks 0 w)
    as (added & (Hrows & Hmine & Hon) & _ & Hcontent).
  destruct (embedChunks toLowerCase documentId agentId 0 chunks w)
    as [[[]|e] w1]; simpl in *.
  - destruct (updateTrainingDocument_frame documentId
                (TrainingDocument.makePartial (Some completed)
                   (Some (Z.of_nat (length chunks)))) w1) as [Hrows' Hon'].
    destruct (updateTrainingDocument _ _ w1) as [[row|e] w2]; simpl in *;
      exists added; unfold appends; (split; [repeat split; congruence|]);
      [intros _; now apply Hcontent|discriminate].
  - exists added. unfold appends. split; [repeat split; assumption|discriminate].
Qed.

(** The [catch] block always throws, and leaves the chunk table alone. *)
Lemma recordFailure_frame (documentId : Z) (error : Error) (w : World) :
  vectorEmbeddings (snd (recordFailure documentId error w)) = vectorEmbeddings w
  /\ available (snd (recordFailure documentId error w)) = available w
  /\ exists e, fst (recordFailure documentId error w) = Throw e.
Proof.
  unfold recordFailure, bind, throw.
  destruct (updateTrainingDocument_frame documentId
              (TrainingDocument.makePartial (Some failed) None) w) as [Hrows Hon].
  destruct (updateTrainingDocument _ _ w) as [[row|e] w1]; simpl in *;
    repeat split; try assumption; eexists; reflexivity.
Qed.

(** C3, amended. [processDocumentForRAG] deletes no chunk: whatever was
    stored before a run is still stored after it, followed by the rows the
    run added, all of them rows of this document and agent; when the run
    returns, the added rows are the chunks of [content], in order.  A second
    run therefore leaves the chunks of the first in place beside its own. *)
Theorem processDocumentForRAG_appends (documentId agentId : Z)
    (content : jsString) (w : World) :
  exists added,
    appends documentId agentId w
      (snd (processDocumentForRAG toLowerCase documentId agentId content w))
      added
    /\ (fst (processDocumentForRAG toLowerCase documentId agentId content w)
        = Return tt ->
        exists config w1,
          getOrCreateRagConfig agentId w = (Return (Some config), w1)
          /\ map VectorEmbedding.content added
             = chunkText content
                 (orDefault (RagConfiguration.chunkSize config) 512)
                 (orDefault (RagConfiguration.chunkOverlap config) 50)).
Proof.
  unfold processDocumentForRAG, tryCatch, bind, defined.
  destruct (getOrCreateRagConfig_frame agentId w) as (Hrows & _ & Hon & _).
  destruct (getOrCreateRagConfig agentId w) as [[[config|]|e] w1] eqn:Hconfig;
    simpl in Hrows, Hon; unfold ret, throw.
  - destruct (updateTrainingDocument_frame documentId
                (TrainingDocument.makePartial (Some processing) None) w1)
      as [Hrows1 Hon1].
    destruct (updateTrainingDocument _ _ w1) as [[row|e] w2]; simpl in *.
    + destruct (indexChunks_appends config documentId agentId content w2)
        as (added & (Hrows2 & Hmine & Hon2) & Hcontent).
      destruct (indexChunks toLowerCase config documentId agentId content w2)
        as [[[]|e] w3]; simpl in *.
      * exists added. unfold appends.
        split; [repeat split; congruence|].
        intros _. exists config, w1. auto.
      * destruct (recordFailure_frame documentId e w3)
          as (Hrows3 & Hon3 & e' & Hthrow).
        exists added. unfold appends.
        split; [repeat split; congruence|].
        rewrite Hthrow. discriminate.
    + destruct (recordFailure_frame documentId e w2)
        as (Hrows3 & Hon3 & e' & Hthrow).
      exists []. unfold appends. rewrite app_nil_r.
      split; [repeat split; try congruence; constructor|].
      rewrite Hthrow. discriminate.
  - destruct (recordFailure_frame documentId TypeError w1)
      as (Hrows3 & Hon3 & e' & Hthrow).
    exists []. unfold appends. rewrite app_nil_r.
    split; [repeat split; try congruence; constructor|].
    rewrite Hthrow. discriminate.
  - destruct (recordFailure_frame documentId e w1)
      as (Hrows3 & Hon3 & e' & Hthrow).
    exists []. unfold appends. rewrite app_nil_r.
    split; [repeat split; try congruence; constructor|].
    rewrite Hthrow. discriminate.
Qed.

End IndexerRuns.

(** C9, the claim as stated fails.  In [outage] the insert of the first chunk
    is rejected with error 2006 and the update of the [catch] block with
    error 2013: the caller gets 2013, not the original error, and the status
    stays [processing].  In [lateOutage] the status is already [completed]
    when the read-back of that update is rejected, and the update of the
    [catch] block is rejected too: the run throws and the document is left
    reported as [completed]. *)
Lemma failed_status_write_loses_the_failure :
  let stopped := processDocumentForRAG asciiToLowerCase 1 3 fox outage in
  let late := processDocumentForRAG asciiToLowerCase 1 3 (str "tiny") lateOutage in
  fst stopped = Throw (QueryFailed 2013)
  /\ map TrainingDocument.status (trainingDocuments (snd stopped)) = [processing]
  /\ fst late = Throw (QueryFailed 2013)
  /\ map TrainingDocument.status (trainingDocuments (snd late)) = [completed].
Proof.
  vm_compute. repeat split; reflexivity.
Qed.

(** C9, amended. If a step of [processDocumentForRAG] after the status was set
    to [processing] throws, and the UPDATE that the [catch] block issues is not
    rejected, then the run throws and every row of the document has status
    [failed] afterwards, so it is not left reported as [completed]; if the
    query that reads the row back after that UPDATE is not rejected either,
    the error thrown is the original one. *)
Theorem processDocumentForRAG_records_failure
    (toLowerCase : jsString -> jsString) (documentId agentId : Z)
    (content : jsString) (w w1 w2 w3 : World) (config : RagConfiguration.t)
    (row : option TrainingDocument.t) (e : Error) :
  getOrCreateRagConfig agentId w = (Return (Some config), w1) ->
  updateTrainingDocument documentId
    (TrainingDocument.makePartial (Some processing) None) w1 = (Return row, w2) ->
  indexChunks toLowerCase config documentId agentId content w2 = (Throw e, w3) ->
  hd None (rejections w3) = None ->
  exists thrown w',
    processDocumentForRAG toLowerCase documentId agentId content w
    = (Throw thrown, w')
    /\ (forall d, In d (trainingDocuments w') ->
                  TrainingDocument.id d = documentId ->
                  TrainingDocument.status d = failed)
    /\ (hd None (tl (rejections w3)) = None -> thrown = e).
Proof.
  intros Hconfig Hprocessing Hindex Hfirst.
  assert (Hon : available w3 = true).
  { destruct (getOrCreateRagConfig_frame agentId w) as (_ & _ & Hon1 & Hon).
    rewrite Hconfig in Hon1, Hon. simpl in Hon1.
    destruct (updateTrainingDocument_frame documentId
                (TrainingDocument.makePartial (Some processing) None) w1)
      as [_ Hon2].
    rewrite Hprocessing in Hon2. simpl in Hon2.
    destruct (indexChunks_appends toLowerCase config documentId agentId content w2)
      as (added & (_ & _ & Hon3) & _).
    rewrite Hindex in Hon3. simpl in Hon3.
    rewrite Hon3, Hon2, Hon1. now apply (Hon (Some config)). }
  destruct (updateTrainingDocument_status documentId failed None w3 Hon Hfirst)
    as [Hstatus Hreturns].
  unfold processDocumentForRAG, tryCatch, bind, defined.
  rewrite Hconfig. unfold ret at 1. rewrite Hprocessing, Hindex.
  unfold recordFailure, bind, throw.
  destruct (updateTrainingDocument documentId
              (TrainingDocument.makePartial (Some failed) None) w3)
    as [[r|e'] w4]; simpl in *.
  - exists e, w4. split; [reflexivity|]. split; [exact Hstatus|reflexivity].
  - exists e', w4. split; [reflexivity|]. split; [exact Hstatus|].
    intros Hsecond. destruct (Hreturns Hsecond) as [row' Hrow]. discriminate.
Qed.

Lemma processDocumentForRAG_records_failure_witness :
  (fst (processDocumentForRAG asciiToLowerCase 1 3 fox glitch)
   = Throw (QueryFailed 1205)
   /\ Forall (fun d => TrainingDocument.status d = failed)
        (trainingDocuments
           (snd (processDocumentForRAG asciiToLowerCase 1 3 fox glitch))))
  /\ ((exists thrown,
         fst (processDocumentForRAG asciiToLowerCase 1 3 fox readBackRejected)
         = Throw thrown)
      /\ Forall (fun d => TrainingDocument.status d = failed)
           (trainingDocuments
              (snd (processDocumentForRAG asciiToLowerCase 1 3 fox
                      readBackRejected)))).
Proof.
  assert (Hrows : forall w',
             map TrainingDocument.id (trainingDocuments w') = [1%Z] ->
             (forall d, In d (trainingDocuments w') ->
                        TrainingDocument.id d = 1%Z ->
                        TrainingDocument.status d = failed) ->
             Forall (fun d => TrainingDocument.status d = failed)
               (trainingDocuments w')).
  { intros w' Hids Hstatus. apply Forall_forall. intros d Hd.
    apply Hstatus; [exact Hd|].
    assert (Hin : In (TrainingDocument.id d)
                    (map TrainingDocument.id (trainingDocuments w')))
      by now apply in_map.
    rewrite Hids in Hin. destruct Hin as [<-|[]]. reflexivity. }
  split.
  - pose (w1 := snd (getOrCreateRagConfig 3 glitch)).
    pose (w2 := snd (updateTrainingDocument 1
                       (TrainingDocument.makePartial (Some processing) None) w1)).
    pose (w3 := snd (indexChunks asciiToLowerCase
                       (configOf (Some 3%Z) (Some 70%Z)) 1 3 fox w2)).
    destruct (@processDocumentForRAG_records_failure asciiToLowerCase 1 3 fox
                glitch w1 w2 w3 (configOf (Some 3%Z) (Some 70%Z))
                (hd_error (trainingDocuments w2)) (QueryFailed 1205)
                eq_refl eq_refl eq_refl eq_refl)
      as (thrown & w' & Hrun & Hstatus & Horiginal).
    rewrite Hrun. simpl.
    split; [f_equal; apply Horiginal; reflexivity|].
    apply Hrows; [|exact Hstatus].
    assert (Hw' : w' = snd (processDocumentForRAG asciiToLowerCase 1 3 fox glitch))
      by now rewrite Hrun.
    rewrite Hw'. vm_compute. reflexivity.
  - pose (w1 := snd (getOrCreateRagConfig 3 readBackRejected)).
    pose (w2 := snd (updateTrainingDocument 1
                       (TrainingDocument.makePartial (Some processing) None) w1)).
    pose (w3 := snd (indexChunks asciiToLowerCase
                       (configOf (Some 3%Z) (Some 70%Z)) 1 3 fox w2)).
    destruct (@processDocumentForRAG_records_failure asciiToLowerCase 1 3 fox
                readBackRejected w1 w2 w3 (configOf (Some 3%Z) (Some 70%Z))
                (hd_error (trainingDocuments w2)) (QueryFailed 2006)
                eq_refl eq_refl eq_refl eq_refl)
      as (thrown & w' & Hrun & Hstatus & _).
    rewrite Hrun. simpl.
    split; [exists thrown; reflexivity|].
    apply Hrows; [|exact Hstatus].
    assert (Hw' : w' = snd (processDocumentForRAG asciiToLowerCase 1 3 fox
                              readBackRejected))
      by now rewrite Hrun.
    rewrite Hw'. vm_compute. reflexivity.
Defined.

(* ----------------------------------------------------------------- *)
(** ** Two runs of the whole pipeline *)

(** The document ["The quick brown fox. The lazy dog sleeps."], with chunks of
    20 code units overlapping by 5, is stored as three chunks and reported as
    completed with a chunk count of 3. *)
Example fox_is_indexed :
  let run := processDocumentForRAG asciiToLowerCase 1 3 fox uploaded in
  fst run = Return tt
  /\ map (fun d => (TrainingDocument.status d, TrainingDocument.chunkCount d))
       (trainingDocuments (snd run)) = [(completed, Some 3%Z)]
  /\ map VectorEmbedding.content (vectorEmbeddings (snd run))
     = [str "The quick brown fox."; str " fox. The lazy dog s"; str "dog sleeps."]
  /\ map VectorEmbedding.chunkIndex (vectorEmbeddings (snd run)) = [0; 1; 2]%Z.
Proof.
  vm_compute. repeat split; reflexivity.
Qed.

(** A query equal to one stored chunk gets that chunk, and only it, as the
    context under the threshold [0.70]; letter case makes no difference. *)
Example stored_chunk_is_retrieved :
  let indexed := snd (processDocumentForRAG asciiToLowerCase 1 3 fox uploaded) in
  fst (retrieveRelevantContext asciiToLowerCase 3 (str "DOG SLEEPS.") indexed)
  = Return (Some (str "dog sleeps.")).
Proof.
  vm_compute. reflexivity.
Qed.

(* ================================================================= *)
(** * Further properties *)

(** ** The chunker: sizes and positions of the chunks *)

Section ChunkSizes.

Variables (text : jsString) (chunkSize overlap : Z).

Hypothesis chunkSize_positive : (0 < chunkSize)%Z.

Lemma chunkLoop_sizes (fuel : nat) (start : Z) (acc chunks : list jsString) :
  (0 <= start)%Z ->
  Forall (fun c => (0 < Z.of_nat (length c) <= chunkSize)%Z) acc ->
  chunkLoop text chunkSize overlap fuel start acc = Some chunks ->
  Forall (fun c => (0 < Z.of_nat (length c) <= chunkSize)%Z) chunks.
Proof.
  revert start acc.
  induction fuel as [|fuel IH]; intros start acc Hstart Hacc Hrun; [discriminate|].
  simpl in Hrun.
  destruct (Z.ltb_spec start (Z.of_nat (length text))) as [Hlt|_];
    [|now injection Hrun as <-].
  set (end_ := Z.min (start + chunkSize) (Z.of_nat (length text))) in *.
  assert (Hchunk : Forall (fun c => (0 < Z.of_nat (length c) <= chunkSize)%Z)
                     (acc ++ [slice text start end_])).
  { apply Forall_app. split; [assumption|]. constructor; [|constructor].
    rewrite slice_inside by (unfold end_; lia).
    rewrite length_firstn, length_skipn. unfold end_. lia. }
  destruct (_ || _) eqn:Hbreak.
  - now injection Hrun as <-.
  - apply orb_false_elim in Hbreak. destruct Hbreak as [Hnext _].
    apply Z.leb_gt in Hnext.
    apply (IH (end_ - overlap)%Z (acc ++ [slice text start end_]));
      [lia|assumption|assumption].
Qed.

End ChunkSizes.

(** X1. For [chunkSize > 0] and any overlap, every chunk is non-empty and has at
    most [chunkSize] code units, a non-empty text gives at least one chunk,
    and the first chunk is [text.slice(0, chunkSize)]. *)
Theorem chunkText_chunk_sizes (text : jsString) (chunkSize overlap : Z) :
  (0 < chunkSize)%Z ->
  Forall (fun c => (0 < Z.of_nat (length c) <= chunkSize)%Z)
    (chunkText text chunkSize overlap)
  /\ (text <> [] ->
      exists rest, chunkText text chunkSize overlap = slice text 0 chunkSize :: rest).
Proof.
  intros Hsize. split.
  - apply (@chunkLoop_sizes text chunkSize overlap Hsize (fuelFor text) 0 []);
      [lia|constructor|apply chunkText_loop].
  - intros Hne.
    assert (Hlen : (0 < Z.of_nat (length text))%Z)
      by (destruct text; [congruence|simpl; lia]).
    assert (Hsame : slice text 0 (Z.min chunkSize (Z.of_nat (length text)))
                    = slice text 0 chunkSize).
    { rewrite !slice_prefix.
      destruct (Z.ltb_spec (Z.min chunkSize (Z.of_nat (length text))) 0); [lia|].
      destruct (Z.ltb_spec chunkSize 0); [lia|].
      now rewrite <- Z.min_assoc, Z.min_id. }
    pose proof (chunkText_loop text chunkSize overlap) as Hrun.
    unfold fuelFor in Hrun. simpl in Hrun.
    destruct (Z.ltb_spec 0 (Z.of_nat (length text))) as [_|]; [|lia].
    rewrite Hsame in Hrun.
    destruct (_ || _).
    + injection Hrun as <-. now exists [].
    + rewrite chunkLoop_acc in Hrun.
      destruct (chunkLoop _ _ _ _ _ []) as [later|]; [|discriminate].
      injection Hrun as <-. now exists later.
Qed.

Lemma chunkText_chunk_sizes_witness :
  Forall (fun c => (0 < Z.of_nat (length c) <= 20)%Z) (chunkText fox 20 30).
Proof.
  exact (proj1 (@chunkText_chunk_sizes fox 20 30 ltac:(reflexivity))).
Defined.

(** An end beyond the text is clamped to its length. *)
Lemma slice_clamp (A : Type) (l : list A) (start end_ : Z) :
  (0 <= end_)%Z ->
  slice l start (Z.min end_ (Z.of_nat (length l))) = slice l start end_.
Proof.
  intros Hend. unfold slice.
  destruct (Z.ltb_spec (Z.min end_ (Z.of_nat (length l))) 0); [lia|].
  destruct (Z.ltb_spec end_ 0); [lia|].
  now rewrite <- Z.min_assoc, Z.min_id.
Qed.

Lemma chunksOf_last (chunkSize overlap r : Z) :
  (0 <= overlap < chunkSize)%Z ->
  (0 < r <= chunkSize)%Z -> chunksOf r chunkSize overlap = 1%Z.
Proof.
  intros Hvalid Hr. unfold chunksOf.
  assert ((r - overlap + (chunkSize - overlap) - 1) / (chunkSize - overlap) < 2)%Z
    by (apply Z.div_lt_upper_bound; lia).
  lia.
Qed.

Lemma chunksOf_next (chunkSize overlap r : Z) :
  (0 <= overlap < chunkSize)%Z ->
  (chunkSize < r)%Z ->
  chunksOf r chunkSize overlap
  = (1 + chunksOf (r - (chunkSize - overlap)) chunkSize overlap)%Z
  /\ (1 <= chunksOf (r - (chunkSize - overlap)) chunkSize overlap)%Z.
Proof.
  intros Hvalid Hr. unfold chunksOf.
  replace (r - overlap + (chunkSize - overlap) - 1)%Z
    with (r - (chunkSize - overlap) - overlap + (chunkSize - overlap) - 1
          + 1 * (chunkSize - overlap))%Z by lia.
  rewrite Z.div_add by lia.
  assert (1 <= (r - (chunkSize - overlap) - overlap + (chunkSize - overlap) - 1)
               / (chunkSize - overlap))%Z
    by (apply Z.div_le_lower_bound; lia).
  lia.
Qed.

Section ChunkPositions.

Variables (text : jsString) (chunkSize overlap : Z).

Hypothesis overlap_valid : (0 <= overlap < chunkSize)%Z.

Let len : Z := Z.of_nat (length text).
Let step : Z := (chunkSize - overlap)%Z.

Lemma chunkLoop_positions (fuel : nat) (start : Z) (chunks : list jsString) :
  (0 <= start < len)%Z ->
  chunkLoop text chunkSize overlap fuel start [] = Some chunks ->
  chunks
  = map (fun i => slice text (start + Z.of_nat i * step)
                    (start + Z.of_nat i * step + chunkSize))
      (seq 0 (Z.to_nat (chunksOf (len - start) chunkSize overlap))).
Proof.
  subst len step. revert start chunks.
  induction fuel as [|fuel IH]; intros start chunks Hstart Hrun; [discriminate|].
  simpl in Hrun.
  destruct (Z.ltb_spec start (Z.of_nat (length text))) as [_|]; [|lia].
  rewrite slice_clamp in Hrun by lia.
  destruct (_ || _) eqn:Hbreak.
  - injection Hrun as <-.
    apply orb_true_iff in Hbreak.
    assert (Hend : (Z.of_nat (length text) <= start + chunkSize)%Z).
    { destruct Hbreak as [H|H].
      - apply Z.leb_le in H. lia.
      - rewrite Z.geb_leb in H. apply Z.leb_le in H. lia. }
    rewrite chunksOf_last by lia. simpl.
    now rewrite Z.add_0_r.
  - apply orb_false_elim in Hbreak. destruct Hbreak as [_ Hend].
    rewrite Z.geb_leb in Hend. apply Z.leb_gt in Hend.
    rewrite Z.min_l in Hrun by lia.
    simpl in Hrun. rewrite chunkLoop_acc in Hrun.
    destruct (chunkLoop text chunkSize overlap fuel _ []) as [later|] eqn:Hlater;
      [|discriminate].
    injection Hrun as <-.
    apply IH in Hlater; [|lia].
    destruct (@chunksOf_next chunkSize overlap (Z.of_nat (length text) - start))
      as [Hcount Hone]; [lia|lia|].
    rewrite Hcount, Z2Nat.inj_add by lia.
    change (Z.to_nat 1) with 1%nat. simpl.
    rewrite Z.add_0_r. f_equal.
    rewrite Hlater, <- seq_shift, map_map.
    replace (Z.of_nat (length text) - (start + chunkSize - overlap))%Z
      with (Z.of_nat (length text) - start - (chunkSize - overlap))%Z by lia.
    apply map_ext. intros i. f_equal; lia.
Qed.

End ChunkPositions.

(** X2. For a non-empty text and [0 <= overlap < chunkSize], the chunks are the
    windows [text.slice(i * step, i * step + chunkSize)] with
    [step = chunkSize - overlap], for [i] from 0 up to the number of chunks,
    which is [max(1, ceil((text.length - overlap) / step))]. *)
Theorem chunkText_positions (text : jsString) (chunkSize overlap : Z) :
  text <> [] ->
  (0 <= overlap < chunkSize)%Z ->
  chunkText text chunkSize overlap
  = map (fun i => slice text (Z.of_nat i * (chunkSize - overlap))
                    (Z.of_nat i * (chunkSize - overlap) + chunkSize))
      (seq 0 (Z.to_nat (chunksOf (Z.of_nat (length text)) chunkSize overlap))).
Proof.
  intros Hne Hvalid.
  assert (Hlen : (0 < Z.of_nat (length text))%Z)
    by (destruct text; [congruence|simpl; lia]).
  rewrite (@chunkLoop_positions text chunkSize overlap Hvalid (fuelFor text) 0
             (chunkText text chunkSize overlap));
    [|lia|apply chunkText_loop].
  rewrite Z.sub_0_r. apply map_ext. intros i. reflexivity.
Qed.

Lemma chunkText_positions_witness :
  chunkText fox 20 5
  = [slice fox 0 20; slice fox 15 35; slice fox 30 50].
Proof.
  exact (@chunkText_positions fox 20 5 ltac:(discriminate)
           ltac:(split; [discriminate|reflexivity])).
Defined.

(* ----------------------------------------------------------------- *)
(** ** The embedder: dimension and what it cannot tell apart *)

Lemma increment_length (index : nat) (embedding : list float) :
  length (increment index embedding) = length embedding.
Proof.
  revert index. induction embedding as [|val rest IH]; intros [|index]; simpl;
    try reflexivity.
  now rewrite IH.
Qed.

Lemma frequencies_length (normalized : jsString) :
  length (frequencies normalized) = 128%nat.
Proof.
  unfold frequencies.
  generalize (repeat 0%float 128) (repeat_length 0%float 128).
  induction normalized as [|c s IH]; intros embedding Hlen; simpl; [exact Hlen|].
  apply IH. now rewrite increment_length.
Qed.

(** X3. Every embedding has exactly 128 entries, whatever the text and the
    lowercasing. *)
Theorem createSimpleEmbedding_dimension (toLowerCase : jsString -> jsString)
    (text : jsString) :
  length (createSimpleEmbedding toLowerCase text) = 128%nat.
Proof.
  unfold createSimpleEmbedding, normalize.
  now rewrite length_map, frequencies_length.
Qed.

(** Counting one code unit and then another gives the same histogram as
    counting them the other way round. *)
Lemma increment_comm (i j : nat) (embedding : list float) :
  increment i (increment j embedding) = increment j (increment i embedding).
Proof.
  revert i j. induction embedding as [|val rest IH]; intros [|i] [|j]; simpl;
    try reflexivity.
  now rewrite IH.
Qed.

Lemma count_permutation (indices indices' : list nat) :
  Permutation indices indices' ->
  forall embedding,
    fold_left (fun e i => increment i e) indices embedding
    = fold_left (fun e i => increment i e) indices' embedding.
Proof.
  induction 1 as [|i l l' _ IH|i j l|l l' l'' _ IH _ IH']; intros embedding; simpl.
  - reflexivity.
  - apply IH.
  - now rewrite increment_comm.
  - now rewrite IH.
Qed.

Lemma frequencies_indices (normalized : jsString) :
  frequencies normalized
  = fold_left (fun e i => increment i e)
      (map (fun c => N.to_nat (c mod 128)) normalized) (repeat 0%float 128).
Proof.
  unfold frequencies. generalize (repeat 0%float 128).
  induction normalized as [|c s IH]; intros embedding; simpl; [reflexivity|].
  apply IH.
Qed.

(** X4. The embedding sees only how often each remainder modulo 128 occurs among
    the lowercased code units: two texts whose lowercased code units have the
    same remainders up to order (anagrams, or letters replaced by code units
    128 apart) get the same embedding. *)
Theorem createSimpleEmbedding_ignores_order (toLowerCase : jsString -> jsString)
    (x y : jsString) :
  Permutation
    (map (fun c => (c mod 128)%N) (toLowerCase x))
    (map (fun c => (c mod 128)%N) (toLowerCase y)) ->
  createSimpleEmbedding toLowerCase x = createSimpleEmbedding toLowerCase y.
Proof.
  intros Hsame. unfold createSimpleEmbedding. f_equal.
  rewrite !frequencies_indices.
  apply count_permutation.
  apply (Permutation_map N.to_nat) in Hsame.
  now rewrite !map_map in Hsame.
Qed.

Lemma createSimpleEmbedding_ignores_order_witness :
  createSimpleEmbedding asciiToLowerCase (str "ab")
  = createSimpleEmbedding asciiToLowerCase [98%N; 225%N].
Proof.
  apply createSimpleEmbedding_ignores_order.
  apply perm_swap.
Defined.

(* ----------------------------------------------------------------- *)
(** ** The similarity: symmetry and the dimension guard *)

(** Binary64 multiplication commutes exactly. *)
Lemma mul_comm (x y : float) : x * y = y * x.
Proof.
  rewrite <- (SF2Prim_Prim2SF (x * y)), <- (SF2Prim_Prim2SF (y * x)).
  f_equal. rewrite !mul_spec. unfold SF64mul, SFmul.
  destruct (Prim2SF x) as [sx|sx| |sx mx ex], (Prim2SF y) as [sy|sy| |sy my ey];
    try reflexivity; try (now rewrite xorb_comm).
  now rewrite xorb_comm, Pos.mul_comm, Z.add_comm.
Qed.

(** The three sums of the loop with the vectors swapped: the same dot
    product, the norms swapped. *)
Lemma sums_swap (a b : list float) (dotProduct normA normB : float) :
  fold_left
    (fun '(dotProduct, normA, normB) '(x, y) =>
       (dotProduct + x * y, normA + x * x, normB + y * y))
    (combine b a) (dotProduct, normB, normA)
  = let '(dotProduct', normA', normB') :=
      fold_left
        (fun '(dotProduct, normA, normB) '(x, y) =>
           (dotProduct + x * y, normA + x * x, normB + y * y))
        (combine a b) (dotProduct, normA, normB) in
    (dotProduct', normB', normA').
Proof.
  revert b dotProduct normA normB.
  induction a as [|x a IH]; intros [|y b] dotProduct normA normB; simpl;
    try reflexivity.
  rewrite (mul_comm y x). apply IH.
Qed.

(** X5. The similarity does not depend on the order of its arguments: exactly the
    same number, or NaN both ways. *)
Theorem cosineSimilarity_symmetric (a b : list float) :
  cosineSimilarity a b = cosineSimilarity b a.
Proof.
  unfold cosineSimilarity. rewrite (Nat.eqb_sym (length b)).
  destruct (length a =? length b)%nat; simpl; [|reflexivity].
  rewrite (sums_swap a b 0 0 0).
  destruct (fold_left _ (combine a b) (0, 0, 0)) as [[dotProduct normA] normB].
  now rewrite mul_comm.
Qed.

(** X6. A stored vector that is missing, or whose length differs from the 128
    entries of the query embedding, scores exactly 0: it cannot pass a
    positive threshold, and it always passes a threshold of [0.00] or
    below. *)
Theorem malformed_vector_scores_zero (toLowerCase : jsString -> jsString)
    (query : jsString) (e : VectorEmbedding.t) :
  match VectorEmbedding.embedding e with
  | None => True
  | Some vector => length vector <> 128%nat
  end ->
  score (scoreAgainst (createSimpleEmbedding toLowerCase query) e) = 0
  /\ forall config,
       (thresholdOf config
        <=? score (scoreAgainst (createSimpleEmbedding toLowerCase query) e))
       = (thresholdOf config <=? 0).
Proof.
  intros Hbad.
  assert (Hzero : score (scoreAgainst (createSimpleEmbedding toLowerCase query) e)
                  = 0).
  { unfold scoreAgainst.
    destruct (VectorEmbedding.embedding e) as [vector|]; [|reflexivity].
    simpl. unfold cosineSimilarity, createSimpleEmbedding, normalize.
    rewrite length_map, frequencies_length.
    destruct (Nat.eqb_spec 128 (length vector)) as [Heq|_]; [|reflexivity].
    congruence. }
  split; [exact Hzero|]. intros config. now rewrite Hzero.
Qed.

Lemma malformed_vector_scores_zero_witness :
  score (scoreAgainst (createSimpleEmbedding asciiToLowerCase (str "lazy dog"))
           (VectorEmbedding.make 9 1 3 0 (str "old") (Some [1; 0; 0]) [] 80))
  = 0.
Proof.
  refine (proj1 (@malformed_vector_scores_zero asciiToLowerCase (str "lazy dog")
                   (VectorEmbedding.make 9 1 3 0 (str "old") (Some [1; 0; 0]) [] 80)
                   _)).
  simpl. discriminate.
Defined.

(* ----------------------------------------------------------------- *)
(** ** The retriever: what it reads and what it writes *)

Lemma getOrCreateRagConfig_configs (agentId : Z) (w : World) :
  ragConfigurations (snd (getOrCreateRagConfig agentId w)) = ragConfigurations w
  \/ (filter (fun c => (RagConfiguration.agentId c =? agentId)%Z)
        (ragConfigurations w) = []
      /\ ragConfigurations (snd (getOrCreateRagConfig agentId w))
         = ragConfigurations w ++ [defaultRagConfig (nextId w) agentId]).
Proof.
  destruct w as [on documents configs chunks next time fates].
  unfold getOrCreateRagConfig. run_async.
  destruct on; simpl; [|now left].
  destruct (hd None fates); simpl; [now left|].
  destruct (filter _ configs) eqn:Hexisting; simpl; [|now left].
  destruct (hd None (tl fates)); simpl; [now left|].
  destruct (hd None (tl (tl fates))); simpl; right; split; reflexivity.
Qed.

Lemma getVectorEmbeddingsByAgentId_frame (agentId : Z) (w : World) :
  trainingDocuments (snd (getVectorEmbeddingsByAgentId agentId w))
  = trainingDocuments w
  /\ ragConfigurations (snd (getVectorEmbeddingsByAgentId agentId w))
     = ragConfigurations w
  /\ vectorEmbeddings (snd (getVectorEmbeddingsByAgentId agentId w))
     = vectorEmbeddings w.
Proof.
  destruct w as [on documents configs chunks next time fates].
  unfold getVectorEmbeddingsByAgentId. run_async.
  destruct on; simpl; [|repeat split].
  destruct (hd None fates); simpl; repeat split.
Qed.

(** X7. Retrieval never changes the documents or the chunks, whatever happens; the
    only write it can make is the default configuration row of an agent that
    had none. *)
Theorem retrieveRelevantContext_writes (toLowerCase : jsString -> jsString)
    (agentId : Z) (query : jsString) (w : World) :
  let w' := snd (retrieveRelevantContext toLowerCase agentId query w) in
  trainingDocuments w' = trainingDocuments w
  /\ vectorEmbeddings w' = vectorEmbeddings w
  /\ (ragConfigurations w' = ragConfigurations w
      \/ (filter (fun c => (RagConfiguration.agentId c =? agentId)%Z)
            (ragConfigurations w) = []
          /\ ragConfigurations w'
             = ragConfigurations w ++ [defaultRagConfig (nextId w) agentId])).
Proof.
  simpl.
  destruct (getOrCreateRagConfig_frame agentId w) as (Hchunks & Hdocs & _ & _).
  pose proof (getOrCreateRagConfig_configs agentId w) as Hconfigs.
  unfold retrieveRelevantContext, tryCatch, bind, defined.
  destruct (getOrCreateRagConfig agentId w) as [[[config|]|e] w1];
    simpl in *; unfold ret, throw; simpl; auto.
  destruct (negb (RagConfiguration.enabled config =? 1)%Z); simpl; auto.
  destruct (getVectorEmbeddingsByAgentId_frame agentId w1)
    as (Hdocs' & Hconfigs' & Hchunks').
  destruct (getVectorEmbeddingsByAgentId agentId w1) as [[rows|e] w2];
    simpl in *.
  - assert (Hgoal : trainingDocuments w2 = trainingDocuments w
                    /\ vectorEmbeddings w2 = vectorEmbeddings w
                    /\ (ragConfigurations w2 = ragConfigurations w
                        \/ (filter (fun c => (RagConfiguration.agentId c =? agentId)%Z)
                              (ragConfigurations w) = []
                            /\ ragConfigurations w2
                               = ragConfigurations w
                                 ++ [defaultRagConfig (nextId w) agentId])))
      by (rewrite Hdocs', Hchunks', Hconfigs'; auto).
    destruct (length rows =? 0)%nat; simpl; [exact Hgoal|].
    destruct (length (scoredEmbeddings _ _ _) =? 0)%nat; simpl; exact Hgoal.
  - rewrite Hdocs', Hchunks', Hconfigs'. auto.
Qed.

(** X8. When the agent's stored configuration has [enabled] other than 1, the
    retriever returns [null] after that one query: the chunks are not
    scanned, whatever is stored. *)
Theorem retrieveRelevantContext_disabled (toLowerCase : jsString -> jsString)
    (agentId : Z) (query : jsString) (w : World) (config : RagConfiguration.t) :
  available w = true ->
  hd None (rejections w) = None ->
  hd_error (filter (fun c => (RagConfiguration.agentId c =? agentId)%Z)
              (ragConfigurations w)) = Some config ->
  RagConfiguration.enabled config <> 1%Z ->
  retrieveRelevantContext toLowerCase agentId query w = (Return None, sent w).
Proof.
  destruct w as [on documents configs chunks next time fates]. simpl.
  intros -> Hfate Hconfig Hdisabled.
  unfold retrieveRelevantContext, getOrCreateRagConfig. run_async.
  rewrite Hfate. simpl.
  destruct (filter _ configs) as [|c rest]; [discriminate|].
  injection Hconfig as ->. simpl.
  destruct (Z.eqb_spec (RagConfiguration.enabled config) 1) as [|_];
    [contradiction|reflexivity].
Qed.

Lemma retrieveRelevantContext_disabled_witness :
  retrieveRelevantContext asciiToLowerCase 3 (str "enlist")
    (makeWorld true [foxDocument]
       [RagConfiguration.make 1 3 0 (Some 20%Z) (Some 5%Z) (Some 3%Z) (Some 70%Z) None]
       (vectorEmbeddings anagrams) 10 100 [])
  = (Return None,
     makeWorld true [foxDocument]
       [RagConfiguration.make 1 3 0 (Some 20%Z) (Some 5%Z) (Some 3%Z) (Some 70%Z) None]
       (vectorEmbeddings anagrams) 10 100 []).
Proof.
  refine (@retrieveRelevantContext_disabled asciiToLowerCase 3 (str "enlist")
            (makeWorld true [foxDocument]
               [RagConfiguration.make 1 3 0 (Some 20%Z) (Some 5%Z) (Some 3%Z)
                  (Some 70%Z) None]
               (vectorEmbeddings anagrams) 10 100 [])
            (RagConfiguration.make 1 3 0 (Some 20%Z) (Some 5%Z) (Some 3%Z)
               (Some 70%Z) None)
            eq_refl eq_refl eq_refl _).
  discriminate.
Defined.

Lemma slice_nonempty (A : Type) (l : list A) (end_ : Z) :
  l <> [] -> (1 <= end_)%Z -> slice l 0 end_ <> [].
Proof.
  intros Hl Hend. rewrite slice_prefix.
  destruct (Z.ltb_spec end_ 0); [lia|].
  destruct l as [|a l]; [congruence|].
  remember (Z.to_nat (Z.min end_ (Z.of_nat (length (a :: l))))) as n eqn:Hn.
  destruct n as [|n]; [simpl in Hn; lia|]. simpl. discriminate.
Qed.

(** X9. With the configuration loaded and enabled, the chunks scanned, and a
    [topK] that is at least 1 (or unset), the retriever returns a context
    exactly when some scanned chunk scores at or above the threshold;
    otherwise it returns [null]. *)
Theorem retrieveRelevantContext_some_iff (toLowerCase : jsString -> jsString)
    (agentId : Z) (query : jsString) (w w1 w2 : World)
    (config : RagConfiguration.t) (rows : list VectorEmbedding.t) :
  getOrCreateRagConfig agentId w = (Return (Some config), w1) ->
  RagConfiguration.enabled config = 1%Z ->
  getVectorEmbeddingsByAgentId agentId w1 = (Return rows, w2) ->
  (1 <= orDefault (RagConfiguration.topK config) 3)%Z ->
  (exists context,
      retrieveRelevantContext toLowerCase agentId query w
      = (Return (Some context), w2))
  <-> (exists e,
          In e rows
          /\ (thresholdOf config
              <=? score (scoreAgainst (createSimpleEmbedding toLowerCase query) e))
             = true).
Proof.
  intros Hconfig Henabled Hscan HtopK. split.
  - intros [context Hrun].
    destruct (retrieveRelevantContext_some _ _ _ _ Hrun)
      as (config' & w1' & rows' & Hconfig' & Hscan' & _).
    rewrite Hconfig in Hconfig'. injection Hconfig' as <- <-.
    rewrite Hscan in Hscan'. injection Hscan' as <-.
    revert Hrun.
    unfold retrieveRelevantContext, tryCatch, bind, defined.
    rewrite Hconfig. unfold ret at 1. rewrite Henabled. simpl. rewrite Hscan.
    destruct (length rows =? 0)%nat; [discriminate|].
    destruct (scoredEmbeddings config (createSimpleEmbedding toLowerCase query) rows)
      as [|item ranked] eqn:Hranked; [discriminate|].
    intros _.
    assert (Hitem : In item (scoredEmbeddings config
                               (createSimpleEmbedding toLowerCase query) rows))
      by (rewrite Hranked; now left).
    unfold scoredEmbeddings in Hitem. rewrite slice_prefix in Hitem.
    apply In_firstn in Hitem. apply stableSort_In in Hitem.
    apply filter_In in Hitem. destruct Hitem as [Hitem Hpass].
    apply in_map_iff in Hitem. destruct Hitem as (e & <- & He).
    now exists e.
  - intros (e & He & Hpass).
    unfold retrieveRelevantContext, tryCatch, bind, defined.
    rewrite Hconfig. unfold ret at 1. rewrite Henabled. simpl. rewrite Hscan.
    destruct rows as [|row rows']; [contradiction|].
    change (length (row :: rows') =? 0)%nat with false. cbv iota.
    set (ranked := scoredEmbeddings config
                     (createSimpleEmbedding toLowerCase query) (row :: rows')).
    assert (Hranked : ranked <> []).
    { unfold ranked, scoredEmbeddings. apply slice_nonempty; [|exact HtopK].
      intros Hnil.
      assert (Hin : In (scoreAgainst (createSimpleEmbedding toLowerCase query) e)
                      (sort byScoreDesc
                         (filter (fun item => thresholdOf config <=? score item)
                            (map (scoreAgainst
                                    (createSimpleEmbedding toLowerCase query))
                               (row :: rows'))))).
      { apply stableSort_In. apply filter_In. split; [|exact Hpass].
        now apply in_map. }
      rewrite Hnil in Hin. exact Hin. }
    destruct ranked as [|item ranked'] eqn:Hr; [congruence|].
    simpl. eexists. reflexivity.
Qed.

Lemma retrieveRelevantContext_some_iff_witness :
  exists context,
    retrieveRelevantContext asciiToLowerCase 3 (str "enlist") anagrams
    = (Return (Some context), sent (sent anagrams)).
Proof.
  refine (proj2 (@retrieveRelevantContext_some_iff asciiToLowerCase 3 (str "enlist")
                   anagrams (sent anagrams) (sent (sent anagrams))
                   (configOf (Some 3%Z) (Some 70%Z))
                   [chunkRow 5 1 (str "silent") 97; chunkRow 4 0 (str "listen") 95]
                   eq_refl eq_refl eq_refl _) _).
  - vm_compute. discriminate.
  - exists (chunkRow 4 0 (str "listen") 95). split; [right; now left|].
    vm_compute. reflexivity.
Defined.

(* ----------------------------------------------------------------- *)
(** ** The indexer: what a run that returns has stored *)

Lemma createVectorEmbedding_returned (row : VectorEmbedding.insert)
    (w w' : World) (r : option VectorEmbedding.t) :
  createVectorEmbedding row w = (Return r, w') ->
  available w = true
  /\ vectorEmbeddings w'
     = vectorEmbeddings w
       ++ [VectorEmbedding.make (nextId w)
             (VectorEmbedding.newDocumentId row) (VectorEmbedding.newAgentId row)
             (VectorEmbedding.newChunkIndex row) (VectorEmbedding.newContent row)
             (Some (VectorEmbedding.newEmbedding row))
             (VectorEmbedding.newMetadata row) (now w)]
  /\ nextId w' = (nextId w + 1)%Z
  /\ now w' = now w
  /\ available w' = true
  /\ trainingDocuments w' = trainingDocuments w.
Proof.
  destruct w as [on documents configs chunks next time fates].
  unfold createVectorEmbedding. run_async.
  destruct on; simpl; [|discriminate].
  destruct (hd None fates); simpl; [discriminate|].
  destruct (hd None (tl fates)); simpl; [discriminate|].
  intros [= _ <-]. simpl. repeat split.
Qed.

Lemma embedChunks_returned (toLowerCase : jsString -> jsString)
    (documentId agentId : Z) (chunks : list jsString) (i : Z) (w w' : World) :
  embedChunks toLowerCase documentId agentId i chunks w = (Return tt, w') ->
  vectorEmbeddings w'
  = vectorEmbeddings w
    ++ chunkRows toLowerCase documentId agentId (nextId w) i (now w) chunks
  /\ nextId w' = (nextId w + Z.of_nat (length chunks))%Z
  /\ now w' = now w
  /\ available w' = available w
  /\ trainingDocuments w' = trainingDocuments w.
Proof.
  revert i w. induction chunks as [|chunk rest IH]; intros i w; simpl.
  - unfold ret. intros [= <-]. rewrite app_nil_r, Z.add_0_r. repeat split.
  - unfold bind.
    destruct (createVectorEmbedding _ w) as [[r|e] w1] eqn:Hfirst; [|discriminate].
    apply createVectorEmbedding_returned in Hfirst.
    destruct Hfirst as (Hon & Hrows & Hnext & Hnow & Hon1 & Hdocs). simpl in *.
    intros Hrest. apply IH in Hrest.
    destruct Hrest as (Hrows' & Hnext' & Hnow' & Hon' & Hdocs').
    rewrite Hrows', Hrows, Hnext', Hnext, Hnow', Hnow, Hon', Hon1, Hon, Hdocs', Hdocs.
    rewrite <- app_assoc. simpl. repeat split. lia.
Qed.

(** A run returns only along the [try] block: configuration loaded, status
    set to processing, every chunk stored, status set to completed. *)
Lemma processDocumentForRAG_returned (toLowerCase : jsString -> jsString)
    (documentId agentId : Z) (content : jsString) (w w' : World) :
  processDocumentForRAG toLowerCase documentId agentId content w = (Return tt, w') ->
  exists config w1 w2 w3 row row',
    getOrCreateRagConfig agentId w = (Return (Some config), w1)
    /\ updateTrainingDocument documentId
         (TrainingDocument.makePartial (Some processing) None) w1
       = (Return row, w2)
    /\ embedChunks toLowerCase documentId agentId 0
         (chunkText content
            (orDefault (RagConfiguration.chunkSize config) 512)
            (orDefault (RagConfiguration.chunkOverlap config) 50)) w2
       = (Return tt, w3)
    /\ updateTrainingDocument documentId
         (TrainingDocument.makePartial (Some completed)
            (Some (Z.of_nat
                     (length
                        (chunkText content
                           (orDefault (RagConfiguration.chunkSize config) 512)
                           (orDefault (RagConfiguration.chunkOverlap config) 50))))))
         w3
       = (Return row', w').
Proof.
  unfold processDocumentForRAG, tryCatch, bind, defined.
  destruct (getOrCreateRagConfig agentId w) as [[[config|]|e] w1] eqn:Hconfig;
    unfold ret, throw.
  - destruct (updateTrainingDocument documentId
                (TrainingDocument.makePartial (Some processing) None) w1)
      as [[row|e] w2] eqn:Hprocessing.
    + unfold indexChunks, bind.
      destruct (embedChunks toLowerCase documentId agentId 0 _ w2)
        as [[[]|e] w3] eqn:Hembed.
      * destruct (updateTrainingDocument documentId _ w3) as [[row'|e] w4]
          eqn:Hcompleted.
        -- unfold ret. intros [= <-].
           exists config, w1, w2, w3, row, row'. auto.
        -- destruct (recordFailure_frame documentId e w4) as (_ & _ & e' & Hthrow).
           destruct (recordFailure documentId e w4) as [[[]|e''] w5];
             simpl in Hthrow; discriminate.
      * destruct (recordFailure_frame documentId e w3) as (_ & _ & e' & Hthrow).
        destruct (recordFailure documentId e w3) as [[[]|e''] w5];
          simpl in Hthrow; discriminate.
    + destruct (recordFailure_frame documentId e w2) as (_ & _ & e' & Hthrow).
      destruct (recordFailure documentId e w2) as [[[]|e''] w5];
        simpl in Hthrow; discriminate.
  - destruct (recordFailure_frame documentId TypeError w1) as (_ & _ & e' & Hthrow).
    destruct (recordFailure documentId TypeError w1) as [[[]|e''] w5];
      simpl in Hthrow; discriminate.
  - destruct (recordFailure_frame documentId e w1) as (_ & _ & e' & Hthrow).
    destruct (recordFailure documentId e w1) as [[[]|e''] w5];
      simpl in Hthrow; discriminate.
Qed.

Lemma getOrCreateRagConfig_counters (agentId : Z) (w : World) :
  now (snd (getOrCreateRagConfig agentId w)) = now w
  /\ (nextId w <= nextId (snd (getOrCreateRagConfig agentId w)) <= nextId w + 1)%Z.
Proof.
  destruct w as [on documents configs chunks next time fates].
  unfold getOrCreateRagConfig. run_async.
  destruct on; simpl; [|split; [reflexivity|lia]].
  destruct (hd None fates); simpl; [split; [reflexivity|lia]|].
  destruct (filter _ configs); simpl; [|split; [reflexivity|lia]].
  destruct (hd None (tl fates)); simpl; [split; [reflexivity|lia]|].
  destruct (hd None (tl (tl fates))); simpl; split; try reflexivity; lia.
Qed.

Lemma updateTrainingDocument_counters (id : Z) (data : TrainingDocument.partial)
    (w : World) :
  now (snd (updateTrainingDocument id data w)) = now w
  /\ nextId (snd (updateTrainingDocument id data w)) = nextId w.
Proof.
  destruct w as [on documents configs chunks next time fates].
  unfold updateTrainingDocument. run_async.
  destruct on; simpl; [|split; reflexivity].
  destruct (hd None fates); simpl; [split; reflexivity|].
  destruct (hd None (tl fates)); simpl; split; reflexivity.
Qed.

(** An update that returns with the database reachable has rewritten the rows
    of the document, and only those, and hands back the first of them. *)
Lemma updateTrainingDocument_returned (id : Z) (data : TrainingDocument.partial)
    (w w' : World) (row : option TrainingDocument.t) :
  available w = true ->
  updateTrainingDocument id data w = (Return row, w') ->
  trainingDocuments w'
  = map (fun d => if (TrainingDocument.id d =? id)%Z
                  then applyPartial data (now w) d else d)
      (trainingDocuments w)
  /\ row = hd_error (filter (fun d => (TrainingDocument.id d =? id)%Z)
                       (trainingDocuments w')).
Proof.
  destruct w as [on documents configs chunks next time fates]. simpl.
  intros ->. unfold updateTrainingDocument. run_async.
  destruct (hd None fates); simpl; [discriminate|].
  destruct (hd None (tl fates)); simpl; [discriminate|].
  intros [= <- <-]. simpl. split; reflexivity.
Qed.

(** X10. When a run returns, the chunk table is what it was, followed by one row
    per chunk of the content, in order: chunk indices [0, 1, ...], fresh
    consecutive ids, each row with the embedding of its own content and the
    length of that content as [metadata.chunkSize].  Every row of the
    document then reads [completed], with a [chunkCount] that is the number
    of rows the run stored. *)
Theorem processDocumentForRAG_stores (toLowerCase : jsString -> jsString)
    (documentId agentId : Z) (content : jsString) (w w' : World) :
  processDocumentForRAG toLowerCase documentId agentId content w = (Return tt, w') ->
  exists config w1 firstId,
    getOrCreateRagConfig agentId w = (Return (Some config), w1)
    /\ (nextId w <= firstId <= nextId w + 1)%Z
    /\ let chunks :=
         chunkText content
           (orDefault (RagConfiguration.chunkSize config) 512)
           (orDefault (RagConfiguration.chunkOverlap config) 50) in
       vectorEmbeddings w'
       = vectorEmbeddings w
         ++ chunkRows toLowerCase documentId agentId firstId 0 (now w) chunks
       /\ forall d, In d (trainingDocuments w') ->
                    TrainingDocument.id d = documentId ->
                    TrainingDocument.status d = completed
                    /\ TrainingDocument.chunkCount d
                       = Some (Z.of_nat (length chunks)).
Proof.
  intros Hrun.
  destruct (@processDocumentForRAG_returned _ _ _ _ _ _ Hrun)
    as (config & w1 & w2 & w3 & row & row' & Hconfig & Hprocessing & Hembed
        & Hcompleted).
  destruct (getOrCreateRagConfig_frame agentId w) as (Hchunks1 & _ & Hon1 & Hon).
  destruct (getOrCreateRagConfig_counters agentId w) as [Hnow1 Hnext1].
  rewrite Hconfig in Hchunks1, Hon1, Hon, Hnow1, Hnext1. simpl in *.
  specialize (Hon _ eq_refl).
  destruct (updateTrainingDocument_frame documentId
              (TrainingDocument.makePartial (Some processing) None) w1)
    as [Hchunks2 Hon2].
  destruct (updateTrainingDocument_counters documentId
              (TrainingDocument.makePartial (Some processing) None) w1)
    as [Hnow2 Hnext2].
  rewrite Hprocessing in Hchunks2, Hon2, Hnow2, Hnext2. simpl in *.
  destruct (@embedChunks_returned _ _ _ _ _ _ _ Hembed)
    as (Hchunks3 & Hnext3 & Hnow3 & Hon3 & _).
  set (chunks := chunkText content _ _) in *.
  destruct (updateTrainingDocument_frame documentId
              (TrainingDocument.makePartial (Some completed)
                 (Some (Z.of_nat (length chunks)))) w3) as [Hchunks4 _].
  rewrite Hcompleted in Hchunks4. simpl in Hchunks4.
  assert (Hon3' : available w3 = true) by congruence.
  destruct (@updateTrainingDocument_returned _ _ _ _ _ Hon3' Hcompleted) as [Hdocs _].
  exists config, w1, (nextId w2). split; [exact Hconfig|]. split; [lia|].
  split.
  - rewrite Hchunks4, Hchunks3, Hchunks2, Hchunks1. do 2 f_equal. congruence.
  - intros d Hd Hid. rewrite Hdocs in Hd.
    apply in_map_iff in Hd. destruct Hd as (d0 & <- & _).
    destruct (Z.eqb_spec (TrainingDocument.id d0) documentId) as [_|Hne];
      [split; reflexivity|contradiction].
Qed.

Lemma processDocumentForRAG_stores_witness :
  exists firstId,
    vectorEmbeddings (snd (processDocumentForRAG asciiToLowerCase 1 3 fox uploaded))
    = chunkRows asciiToLowerCase 1 3 firstId 0 100 (chunkText fox 20 5).
Proof.
  assert (Hrun : processDocumentForRAG asciiToLowerCase 1 3 fox uploaded
                 = (Return tt,
                    snd (processDocumentForRAG asciiToLowerCase 1 3 fox uploaded)))
    by (vm_compute; reflexivity).
  destruct (@processDocumentForRAG_stores asciiToLowerCase 1 3 fox uploaded _ Hrun)
    as (config & w1 & firstId & Hconfig & _ & Hrows & _).
  assert (Hloaded : getOrCreateRagConfig 3 uploaded
                    = (Return (Some (configOf (Some 3%Z) (Some 70%Z))),
                       sent uploaded))
    by (vm_compute; reflexivity).
  rewrite Hloaded in Hconfig. injection Hconfig as <- <-.
  exists firstId. exact Hrows.
Defined.

(* ----------------------------------------------------------------- *)
(** ** The indexer: without a database, and with one that answers *)

(** X11. Without a database handle a run throws "Database not available" from its
    first step and changes nothing: the [catch] block's status update is a
    silent no-op, so the document does not become [failed]. *)
Theorem processDocumentForRAG_offline (toLowerCase : jsString -> jsString)
    (documentId agentId : Z) (content : jsString) (w : World) :
  available w = false ->
  processDocumentForRAG toLowerCase documentId agentId content w
  = (Throw DatabaseNotAvailable, w).
Proof.
  destruct w as [on documents configs chunks next time fates]. simpl.
  intros ->. reflexivity.
Qed.

Lemma processDocumentForRAG_offline_witness :
  processDocumentForRAG asciiToLowerCase 1 3 fox
    (makeWorld false [foxDocument] [] [] 10 100 [])
  = (Throw DatabaseNotAvailable, makeWorld false [foxDocument] [] [] 10 100 []).
Proof.
  exact (@processDocumentForRAG_offline asciiToLowerCase 1 3 fox
           (makeWorld false [foxDocument] [] [] 10 100 []) eq_refl).
Defined.

Lemma getOrCreateRagConfig_calm (agentId : Z) (w : World) :
  calm w ->
  exists config w1,
    getOrCreateRagConfig agentId w = (Return (Some config), w1) /\ calm w1.
Proof.
  destruct w as [on documents configs chunks next time fates].
  unfold calm. simpl. intros [-> ->].
  unfold getOrCreateRagConfig. run_async.
  destruct (filter (fun c => (RagConfiguration.agentId c =? agentId)%Z) configs)
    as [|c rest]; simpl.
  - rewrite filter_app. simpl. rewrite Z.eqb_refl.
    destruct (filter (fun c => (RagConfiguration.id c =? next)%Z) configs);
      simpl; eexists _, _; repeat split.
  - eexists _, _. repeat split.
Qed.

Lemma updateTrainingDocument_calm (id : Z) (data : TrainingDocument.partial)
    (w : World) :
  calm w ->
  exists row w1, updateTrainingDocument id data w = (Return row, w1) /\ calm w1.
Proof.
  destruct w as [on documents configs chunks next time fates].
  unfold calm. simpl. intros [-> ->].
  unfold updateTrainingDocument. run_async.
  eexists _, _. repeat split.
Qed.

Lemma embedChunks_calm (toLowerCase : jsString -> jsString)
    (documentId agentId : Z) (chunks : list jsString) (i : Z) (w : World) :
  calm w ->
  exists w1,
    embedChunks toLowerCase documentId agentId i chunks w = (Return tt, w1)
    /\ calm w1.
Proof.
  revert i w. induction chunks as [|chunk rest IH]; intros i w Hcalm; simpl.
  - exists w. split; [reflexivity|assumption].
  - destruct w as [on documents configs stored next time fates].
    unfold calm in Hcalm. simpl in Hcalm. destruct Hcalm as [-> ->].
    unfold bind at 1. unfold createVectorEmbedding. run_async.
    apply IH. split; reflexivity.
Qed.

(** X12. With the database reachable and no query rejected, a run always returns,
    whether or not a document with that id exists: the indexer never looks
    the document up, so chunks can be stored for a document that has no
    record. *)
Theorem processDocumentForRAG_calm (toLowerCase : jsString -> jsString)
    (documentId agentId : Z) (content : jsString) (w : World) :
  calm w ->
  exists w',
    processDocumentForRAG toLowerCase documentId agentId content w = (Return tt, w')
    /\ calm w'.
Proof.
  intros Hcalm.
  destruct (getOrCreateRagConfig_calm agentId Hcalm) as (config & w1 & Hconfig & Hcalm1).
  destruct (updateTrainingDocument_calm documentId
              (TrainingDocument.makePartial (Some processing) None) Hcalm1)
    as (row & w2 & Hprocessing & Hcalm2).
  set (chunks := chunkText content
                   (orDefault (RagConfiguration.chunkSize config) 512)
                   (orDefault (RagConfiguration.chunkOverlap config) 50)).
  destruct (embedChunks_calm toLowerCase documentId agentId chunks 0 Hcalm2)
    as (w3 & Hembed & Hcalm3).
  destruct (updateTrainingDocument_calm documentId
              (TrainingDocument.makePartial (Some completed)
                 (Some (Z.of_nat (length chunks)))) Hcalm3)
    as (row' & w4 & Hcompleted & Hcalm4).
  exists w4. split; [|exact Hcalm4].
  unfold processDocumentForRAG, tryCatch, bind, defined.
  rewrite Hconfig. unfold ret at 1. rewrite Hprocessing.
  unfold indexChunks, bind. fold chunks. rewrite Hembed, Hcompleted. reflexivity.
Qed.

Lemma processDocumentForRAG_calm_witness :
  exists w',
    processDocumentForRAG asciiToLowerCase 42 3 fox uploaded = (Return tt, w')
    /\ calm w'.
Proof.
  apply processDocumentForRAG_calm. split; reflexivity.
Defined.

(* ----------------------------------------------------------------- *)
(** ** The indexer: chunk ids stay fresh and distinct *)

Lemma chunkIdsFresh_later (w w' : World) :
  vectorEmbeddings w' = vectorEmbeddings w ->
  (nextId w <= nextId w')%Z ->
  chunkIdsFresh w -> chunkIdsFresh w'.
Proof.
  intros Hrows Hnext [Hbelow Hdistinct]. unfold chunkIdsFresh.
  rewrite Hrows. split; [|assumption].
  revert Hbelow. apply Forall_impl. intros e He. lia.
Qed.

Lemma createVectorEmbedding_fresh (row : VectorEmbedding.insert) (w : World) :
  chunkIdsFresh w -> chunkIdsFresh (snd (createVectorEmbedding row w)).
Proof.
  destruct w as [on documents configs chunks next time fates].
  unfold chunkIdsFresh, createVectorEmbedding. run_async.
  intros [Hbelow Hdistinct].
  assert (Hinserted :
            Forall (fun e => (VectorEmbedding.id e < next + 1)%Z)
              (chunks ++ [VectorEmbedding.make next
                            (VectorEmbedding.newDocumentId row)
                            (VectorEmbedding.newAgentId row)
                            (VectorEmbedding.newChunkIndex row)
                            (VectorEmbedding.newContent row)
                            (Some (VectorEmbedding.newEmbedding row))
                            (VectorEmbedding.newMetadata row) time])
            /\ NoDup (map VectorEmbedding.id
                        (chunks ++ [VectorEmbedding.make next
                                      (VectorEmbedding.newDocumentId row)
                                      (VectorEmbedding.newAgentId row)
                                      (VectorEmbedding.newChunkIndex row)
                                      (VectorEmbedding.newContent row)
                                      (Some (VectorEmbedding.newEmbedding row))
                                      (VectorEmbedding.newMetadata row) time]))).
  { split.
    - apply Forall_app. split.
      + revert Hbelow. apply Forall_impl. intros e He. lia.
      + constructor; [simpl; lia|constructor].
    - rewrite map_app. simpl.
      apply NoDup_app; [assumption|constructor; [intros []|constructor]|].
      intros id Hid [<-|[]].
      apply in_map_iff in Hid. destruct Hid as (e & Hid & He).
      rewrite Forall_forall in Hbelow. specialize (Hbelow e He). lia. }
  destruct on; simpl; [|split; assumption].
  destruct (hd None fates); simpl; [split; assumption|].
  destruct (hd None (tl fates)); simpl; exact Hinserted.
Qed.

Lemma embedChunks_fresh (toLowerCase : jsString -> jsString)
    (documentId agentId : Z) (chunks : list jsString) (i : Z) (w : World) :
  chunkIdsFresh w ->
  chunkIdsFresh (snd (embedChunks toLowerCase documentId agentId i chunks w)).
Proof.
  revert i w. induction chunks as [|chunk rest IH]; intros i w Hfresh; simpl;
    [assumption|].
  unfold bind.
  pose proof (createVectorEmbedding_fresh
                (VectorEmbedding.makeInsert documentId agentId i chunk
                   (createSimpleEmbedding toLowerCase chunk)
                   [("chunkSize"%string, Z.of_nat (length chunk))]) Hfresh)
    as Hfirst.
  destruct (createVectorEmbedding _ w) as [[r|e] w1]; simpl in *;
    [now apply IH|assumption].
Qed.

Lemma updateTrainingDocument_fresh (id : Z) (data : TrainingDocument.partial)
    (w : World) :
  chunkIdsFresh w -> chunkIdsFresh (snd (updateTrainingDocument id data w)).
Proof.
  destruct (updateTrainingDocument_frame id data w) as [Hrows _].
  destruct (updateTrainingDocument_counters id data w) as [_ Hnext].
  apply chunkIdsFresh_later; [assumption|lia].
Qed.

(** X13. Whatever a run does, returning or throwing half-way, it keeps the chunk
    ids distinct and below the next [AUTO_INCREMENT] value when they were so
    before. *)
Theorem processDocumentForRAG_keeps_ids_fresh (toLowerCase : jsString -> jsString)
    (documentId agentId : Z) (content : jsString) (w : World) :
  chunkIdsFresh w ->
  chunkIdsFresh
    (snd (processDocumentForRAG toLowerCase documentId agentId content w)).
Proof.
  intros Hfresh.
  assert (Hfailure : forall e w0,
             chunkIdsFresh w0 -> chunkIdsFresh (snd (recordFailure documentId e w0))).
  { intros e w0 Hw0. unfold recordFailure, bind, throw.
    pose proof (@updateTrainingDocument_fresh documentId
                  (TrainingDocument.makePartial (Some failed) None) w0 Hw0) as H.
    destruct (updateTrainingDocument _ _ w0) as [[row|e'] w1]; exact H. }
  assert (Hfresh1 : chunkIdsFresh (snd (getOrCreateRagConfig agentId w))).
  { destruct (getOrCreateRagConfig_frame agentId w) as (Hrows & _).
    destruct (getOrCreateRagConfig_counters agentId w) as [_ Hnext].
    apply (@chunkIdsFresh_later w); [assumption|lia|assumption]. }
  unfold processDocumentForRAG, tryCatch, bind, defined.
  destruct (getOrCreateRagConfig agentId w) as [[[config|]|e] w1];
    simpl in Hfresh1; unfold ret, throw; try (now apply Hfailure).
  pose proof (@updateTrainingDocument_fresh documentId
                (TrainingDocument.makePartial (Some processing) None) w1 Hfresh1)
    as Hfresh2.
  destruct (updateTrainingDocument _ _ w1) as [[row|e] w2]; simpl in Hfresh2;
    [|now apply Hfailure].
  unfold indexChunks, bind.
  set (chunks := chunkText content _ _).
  pose proof (@embedChunks_fresh toLowerCase documentId agentId chunks 0 w2 Hfresh2)
    as Hfresh3.
  destruct (embedChunks toLowerCase documentId agentId 0 chunks w2)
    as [[[]|e] w3]; simpl in Hfresh3; [|now apply Hfailure].
  pose proof (@updateTrainingDocument_fresh documentId
                (TrainingDocument.makePartial (Some completed)
                   (Some (Z.of_nat (length chunks)))) w3 Hfresh3) as Hfresh4.
  destruct (updateTrainingDocument _ _ w3) as [[row'|e] w4]; simpl in Hfresh4;
    [exact Hfresh4|now apply Hfailure].
Qed.

Lemma processDocumentForRAG_keeps_ids_fresh_witness :
  chunkIdsFresh (snd (processDocumentForRAG asciiToLowerCase 1 3 fox anagrams)).
Proof.
  apply processDocumentForRAG_keeps_ids_fresh.
  split.
  - repeat constructor.
  - simpl. repeat constructor; simpl; intuition discriminate.
Defined.

(* ----------------------------------------------------------------- *)
(** ** The indexer: a configured overlap of 0 *)

(** When the overlap is at least the chunk size the first chunk is the only
    one. *)
Lemma chunkText_single (text : jsString) (chunkSize overlap : Z) :
  text <> [] -> (0 < chunkSize <= overlap)%Z ->
  chunkText text chunkSize overlap = [slice text 0 chunkSize].
Proof.
  intros Hne Hov.
  assert (Hlen : (0 < Z.of_nat (length text))%Z)
    by (destruct text; [congruence|simpl; lia]).
  pose proof (chunkText_loop text chunkSize overlap) as Hrun.
  unfold fuelFor in Hrun. simpl in Hrun.
  destruct (Z.ltb_spec 0 (Z.of_nat (length text))) as [_|]; [|lia].
  rewrite slice_clamp in Hrun by lia.
  assert (Hstop : (Z.min chunkSize (Z.of_nat (length text)) - overlap <=? 0)%Z = true)
    by (apply Z.leb_le; lia).
  rewrite Hstop in Hrun. simpl in Hrun. now injection Hrun as <-.
Qed.

(** X14. [config.chunkOverlap || 50] turns a configured overlap of 0 (or [null])
    into 50.  With a chunk size of at most 50 the overlap then covers the
    whole window: a run that returns has stored one chunk only, the first
    [chunkSize] code units of the content, however long the content is. *)
Theorem zero_overlap_small_chunks_index_the_start_only
    (toLowerCase : jsString -> jsString) (documentId agentId : Z)
    (content : jsString) (w w1 w' : World) (config : RagConfiguration.t)
    (chunkSize : Z) :
  getOrCreateRagConfig agentId w = (Return (Some config), w1) ->
  RagConfiguration.chunkSize config = Some chunkSize ->
  (1 <= chunkSize <= 50)%Z ->
  RagConfiguration.chunkOverlap config = Some 0%Z
  \/ RagConfiguration.chunkOverlap config = None ->
  content <> [] ->
  processDocumentForRAG toLowerCase documentId agentId content w = (Return tt, w') ->
  map VectorEmbedding.content
    (skipn (length (vectorEmbeddings w)) (vectorEmbeddings w'))
  = [slice content 0 chunkSize].
Proof.
  intros Hconfig Hsize Hsmall Hoverlap Hne Hrun.
  destruct (@processDocumentForRAG_returned _ _ _ _ _ _ Hrun)
    as (config' & w1' & w2 & w3 & row & row' & Hconfig' & Hprocessing & Hembed
        & Hcompleted).
  rewrite Hconfig in Hconfig'. injection Hconfig' as <- <-.
  assert (Hchunks : chunkText content
                      (orDefault (RagConfiguration.chunkSize config) 512)
                      (orDefault (RagConfiguration.chunkOverlap config) 50)
                    = [slice content 0 chunkSize]).
  { rewrite Hsize. simpl.
    destruct (Z.eqb_spec chunkSize 0); [lia|].
    assert (Hdefault : orDefault (RagConfiguration.chunkOverlap config) 50 = 50%Z)
      by (destruct Hoverlap as [-> | ->]; reflexivity).
    rewrite Hdefault. apply chunkText_single; [assumption|lia]. }
  rewrite Hchunks in Hembed, Hcompleted.
  destruct (@embedChunks_returned _ _ _ _ _ _ _ Hembed) as (Hrows3 & _).
  destruct (getOrCreateRagConfig_frame agentId w) as (Hrows1 & _).
  rewrite Hconfig in Hrows1. simpl in Hrows1.
  destruct (updateTrainingDocument_frame documentId
              (TrainingDocument.makePartial (Some processing) None) w1)
    as [Hrows2 _].
  rewrite Hprocessing in Hrows2. simpl in Hrows2.
  match type of Hcompleted with
  | updateTrainingDocument _ ?data _ = _ =>
      destruct (updateTrainingDocument_frame documentId data w3) as [Hrows4 _]
  end.
  rewrite Hcompleted in Hrows4. simpl in Hrows4.
  rewrite Hrows4, Hrows3, Hrows2, Hrows1.
  rewrite skipn_app, Nat.sub_diag, skipn_all. reflexivity.
Qed.

Lemma zero_overlap_small_chunks_index_the_start_only_witness :
  map VectorEmbedding.content
    (vectorEmbeddings
       (snd (processDocumentForRAG asciiToLowerCase 1 3 fox
               (makeWorld true [foxDocument]
                  [RagConfiguration.make 1 3 1 (Some 10%Z) (Some 0%Z) (Some 3%Z)
                     (Some 70%Z) None] [] 10 100 []))))
  = [str "The quick "].
Proof.
  set (w := makeWorld true [foxDocument]
              [RagConfiguration.make 1 3 1 (Some 10%Z) (Some 0%Z) (Some 3%Z)
                 (Some 70%Z) None] [] 10 100 []).
  assert (Hrun : processDocumentForRAG asciiToLowerCase 1 3 fox w
                 = (Return tt, snd (processDocumentForRAG asciiToLowerCase 1 3 fox w)))
    by (vm_compute; reflexivity).
  exact (@zero_overlap_small_chunks_index_the_start_only asciiToLowerCase 1 3 fox
           w (sent w) _
           (RagConfiguration.make 1 3 1 (Some 10%Z) (Some 0%Z) (Some 3%Z)
              (Some 70%Z) None)
           10 eq_refl eq_refl ltac:(lia) (or_introl eq_refl)
           ltac:(discriminate) Hrun).
Defined.

(* ----------------------------------------------------------------- *)
(** ** The storage helpers: configurations *)

Lemma filter_none (A : Type) (p : A -> bool) (l : list A) :
  Forall (fun x => p x = false) l -> filter p l = [].
Proof.
  induction 1 as [|x l Hx _ IH]; simpl; [reflexivity|]. now rewrite Hx.
Qed.

(** X15. Where the stored configuration ids are below the next [AUTO_INCREMENT]
    value, the configuration [getOrCreateRagConfig] returns belongs to the
    agent asked for and is the first such row of the table afterwards; it is
    the row of defaults (enabled, 512, 50, 3, "0.7") exactly when the agent
    had none; and asking again returns the same configuration without
    another insert. *)
Theorem getOrCreateRagConfig_idempotent (agentId : Z) (w w1 : World)
    (config : RagConfiguration.t) :
  Forall (fun c => (RagConfiguration.id c < nextId w)%Z) (ragConfigurations w) ->
  getOrCreateRagConfig agentId w = (Return (Some config), w1) ->
  RagConfiguration.agentId config = agentId
  /\ hd_error (filter (fun c => (RagConfiguration.agentId c =? agentId)%Z)
                 (ragConfigurations w1)) = Some config
  /\ (filter (fun c => (RagConfiguration.agentId c =? agentId)%Z)
        (ragConfigurations w) = []
      -> config = defaultRagConfig (nextId w) agentId)
  /\ (hd None (rejections w1) = None ->
      getOrCreateRagConfig agentId w1 = (Return (Some config), sent w1)).
Proof.
  destruct w as [on documents configs chunks next time fates]. simpl.
  intros Hfresh.
  unfold getOrCreateRagConfig at 1. run_async.
  destruct on; simpl; [|discriminate].
  destruct (hd None fates); simpl; [discriminate|].
  destruct (filter (fun c => (RagConfiguration.agentId c =? agentId)%Z) configs)
    as [|c rest] eqn:Hexisting; simpl.
  - destruct (hd None (tl fates)); simpl; [discriminate|].
    destruct (hd None (tl (tl fates))); simpl; [discriminate|].
    rewrite filter_app. simpl. rewrite Z.eqb_refl.
    rewrite (@filter_none _ (fun c => (RagConfiguration.id c =? next)%Z) configs).
    + simpl. intros [= <- <-]. simpl.
      split; [reflexivity|]. split; [|split; [reflexivity|]].
      * rewrite filter_app, Hexisting. simpl. now rewrite Z.eqb_refl.
      * intros Hfate. unfold getOrCreateRagConfig. run_async.
        rewrite Hfate. simpl. rewrite filter_app, Hexisting. simpl.
        rewrite Z.eqb_refl. reflexivity.
    + revert Hfresh. apply Forall_impl. intros c Hc. apply Z.eqb_neq. lia.
  - intros [= <- <-]. simpl.
    assert (Hc : In c (filter (fun c => (RagConfiguration.agentId c =? agentId)%Z)
                         configs)) by (rewrite Hexisting; now left).
    apply filter_In in Hc. destruct Hc as [_ Hc]. apply Z.eqb_eq in Hc.
    split; [exact Hc|]. split; [now rewrite Hexisting|].
    split; [discriminate|].
    intros Hfate. unfold getOrCreateRagConfig. run_async.
    rewrite Hfate. simpl. rewrite Hexisting. reflexivity.
Qed.

Lemma getOrCreateRagConfig_idempotent_witness :
  getOrCreateRagConfig 8 (snd (getOrCreateRagConfig 8 uploaded))
  = (Return (Some (defaultRagConfig 10 8)),
     sent (snd (getOrCreateRagConfig 8 uploaded))).
Proof.
  refine (proj2 (proj2 (proj2
    (@getOrCreateRagConfig_idempotent 8 uploaded
       (snd (getOrCreateRagConfig 8 uploaded)) (defaultRagConfig 10 8)
       _ eq_refl))) eq_refl).
  repeat constructor.
Defined.

(* ----------------------------------------------------------------- *)
(** ** The storage helpers: chunks *)

Lemma getVectorEmbeddingsByAgentId_scan (agentId : Z) (w : World) :
  available w = true ->
  hd None (rejections w) = None ->
  getVectorEmbeddingsByAgentId agentId w
  = (Return (orderByCreatedAtDesc
               (filter (fun e => (VectorEmbedding.agentId e =? agentId)%Z)
                  (vectorEmbeddings w))),
     sent w).
Proof.
  destruct w as [on documents configs chunks next time fates]. simpl.
  intros -> Hfate. unfold getVectorEmbeddingsByAgentId. run_async.
  now rewrite Hfate.
Qed.

(** X16. A chunk that [createVectorEmbedding] has stored is found by the next scan
    of its agent, with the content and the vector that were given, and the
    scan of any agent finds nothing else new. *)
Theorem stored_chunk_is_scanned (row : VectorEmbedding.insert) (w w1 : World)
    (r : option VectorEmbedding.t) (agentId : Z) :
  createVectorEmbedding row w = (Return r, w1) ->
  hd None (rejections w1) = None ->
  exists rows,
    getVectorEmbeddingsByAgentId agentId w1 = (Return rows, sent w1)
    /\ forall e,
         In e rows
         <-> (In e (vectorEmbeddings w) /\ VectorEmbedding.agentId e = agentId)
             \/ (VectorEmbedding.newAgentId row = agentId
                 /\ e = VectorEmbedding.make (nextId w)
                          (VectorEmbedding.newDocumentId row)
                          (VectorEmbedding.newAgentId row)
                          (VectorEmbedding.newChunkIndex row)
                          (VectorEmbedding.newContent row)
                          (Some (VectorEmbedding.newEmbedding row))
                          (VectorEmbedding.newMetadata row) (now w)).
Proof.
  intros Hstored Hfate.
  destruct (@createVectorEmbedding_returned _ _ _ _ Hstored)
    as (_ & Hrows & _ & _ & Hon & _).
  eexists. split; [now apply getVectorEmbeddingsByAgentId_scan|].
  intros e. unfold orderByCreatedAtDesc.
  rewrite stableSort_In, filter_In, Hrows, in_app_iff. simpl.
  rewrite Z.eqb_eq. split.
  - intros [[He|[<-|[]]] Hagent]; [left; auto|right; auto].
  - intros [[He Hagent]|[Hagent ->]]; auto.
Qed.

Lemma stored_chunk_is_scanned_witness :
  exists rows,
    getVectorEmbeddingsByAgentId 3
      (snd (createVectorEmbedding
              (VectorEmbedding.makeInsert 1 3 0 (str "lazy dog") [1; 0] []) uploaded))
    = (Return rows,
       sent (snd (createVectorEmbedding
                    (VectorEmbedding.makeInsert 1 3 0 (str "lazy dog") [1; 0] [])
                    uploaded)))
    /\ In (VectorEmbedding.make 10 1 3 0 (str "lazy dog") (Some [1; 0]) [] 100) rows.
Proof.
  destruct (@stored_chunk_is_scanned
              (VectorEmbedding.makeInsert 1 3 0 (str "lazy dog") [1; 0] [])
              uploaded _ _ 3 eq_refl eq_refl) as (rows & Hscan & Hrows).
  exists rows. split; [exact Hscan|].
  apply Hrows. right. split; reflexivity.
Defined.

(** X17. Deleting the chunks of a document removes exactly those from every
    agent's scan: the chunks of other documents are all still found. *)
Theorem deleteVectorEmbeddingsByDocumentId_scan (documentId agentId : Z)
    (w w1 w2 : World) (rows : list VectorEmbedding.t) :
  available w = true ->
  deleteVectorEmbeddingsByDocumentId documentId w = (Return tt, w1) ->
  getVectorEmbeddingsByAgentId agentId w1 = (Return rows, w2) ->
  forall e,
    In e rows
    <-> In e (vectorEmbeddings w)
        /\ VectorEmbedding.agentId e = agentId
        /\ VectorEmbedding.documentId e <> documentId.
Proof.
  destruct w as [on documents configs chunks next time fates]. simpl.
  intros ->. unfold deleteVectorEmbeddingsByDocumentId. run_async.
  destruct (hd None fates); simpl; [discriminate|].
  intros [= <-].
  unfold getVectorEmbeddingsByAgentId. run_async.
  destruct (hd None (tl fates)); simpl; [discriminate|].
  intros [= <- <-] e. unfold orderByCreatedAtDesc.
  rewrite stableSort_In, !filter_In, negb_true_iff, Z.eqb_eq, Z.eqb_neq.
  tauto.
Qed.

Lemma deleteVectorEmbeddingsByDocumentId_scan_witness :
  In (chunkRowOf 2 5 0 (str "other") 96)
    [chunkRowOf 2 5 0 (str "other") 96].
Proof.
  refine (proj2 (@deleteVectorEmbeddingsByDocumentId_scan 1 3 twoDocuments
                   (snd (deleteVectorEmbeddingsByDocumentId 1 twoDocuments))
                   (sent (snd (deleteVectorEmbeddingsByDocumentId 1 twoDocuments)))
                   [chunkRowOf 2 5 0 (str "other") 96]
                   eq_refl eq_refl eq_refl (chunkRowOf 2 5 0 (str "other") 96)) _).
  split; [right; now left|]. split; [reflexivity|discriminate].
Defined.

(* ----------------------------------------------------------------- *)
(** ** The storage helpers: documents *)

(** X18. [deleteTrainingDocument] checks the owner and
    [deleteVectorEmbeddingsByDocumentId] does not: called for a document that
    belongs to another user, the pair deletes every chunk of the document and
    leaves its record, and all other records, in place. *)
Theorem delete_by_another_user (documentId userId : Z) (w w1 w2 : World)
    (d : TrainingDocument.t) :
  available w = true ->
  In d (trainingDocuments w) ->
  TrainingDocument.id d = documentId ->
  TrainingDocument.userId d <> userId ->
  deleteVectorEmbeddingsByDocumentId documentId w = (Return tt, w1) ->
  deleteTrainingDocument documentId userId w1 = (Return tt, w2) ->
  In d (trainingDocuments w2)
  /\ (forall e, In e (vectorEmbeddings w2) ->
                VectorEmbedding.documentId e <> documentId)
  /\ forall d', In d' (trainingDocuments w2)
                <-> In d' (trainingDocuments w)
                    /\ ~ (TrainingDocument.id d' = documentId
                          /\ TrainingDocument.userId d' = userId).
Proof.
  destruct w as [on documents configs chunks next time fates]. simpl.
  intros -> Hd Hid Howner.
  unfold deleteVectorEmbeddingsByDocumentId. run_async.
  destruct (hd None fates); simpl; [discriminate|].
  intros [= <-].
  unfold deleteTrainingDocument. run_async.
  destruct (hd None (tl fates)); simpl; [discriminate|].
  intros [= <-]. simpl.
  assert (Hkept : forall d',
             In d' (filter
                      (fun d0 => negb ((TrainingDocument.id d0 =? documentId)%Z
                                       && (TrainingDocument.userId d0 =? userId)%Z))
                      documents)
             <-> In d' documents
                 /\ ~ (TrainingDocument.id d' = documentId
                       /\ TrainingDocument.userId d' = userId)).
  { intros d'. rewrite filter_In, negb_true_iff, andb_false_iff, !Z.eqb_neq.
    split; intros [Hin Hnot]; (split; [exact Hin|]).
    - intros [Ha Hb]. destruct Hnot; contradiction.
    - destruct (Z.eq_dec (TrainingDocument.id d') documentId) as [Heq|Hne];
        [right; intros Hu; apply Hnot; auto|left; exact Hne]. }
  split; [apply Hkept; split; [exact Hd|intros [_ Hu]; contradiction]|].
  split; [|exact Hkept].
  intros e He. apply filter_In in He. destruct He as [_ He].
  apply negb_true_iff in He. now apply Z.eqb_neq in He.
Qed.

Lemma delete_by_another_user_witness :
  In foxDocument
    (trainingDocuments
       (snd (deleteTrainingDocument 1 8
               (snd (deleteVectorEmbeddingsByDocumentId 1 twoDocuments))))).
Proof.
  refine (proj1 (@delete_by_another_user 1 8 twoDocuments
                   (snd (deleteVectorEmbeddingsByDocumentId 1 twoDocuments))
                   (snd (deleteTrainingDocument 1 8
                           (snd (deleteVectorEmbeddingsByDocumentId 1 twoDocuments))))
                   foxDocument eq_refl _ eq_refl _ eq_refl eq_refl)).
  - now left.
  - discriminate.
Defined.



(** X20. Where the stored document ids are below the next [AUTO_INCREMENT] value,
    [createTrainingDocument] appends one row and hands it back: it carries
    the given fields, the next id, the status "pending" and the chunk count 0
    unless others were given; the next listing of the agent's documents
    contains it. *)
Theorem created_document_is_listed (document : Documents.insert)
    (w w1 : World) (r : option TrainingDocument.t) :
  Forall (fun d => (TrainingDocument.id d < nextId w)%Z) (trainingDocuments w) ->
  Documents.createTrainingDocument document w = (Return r, w1) ->
  let created :=
    TrainingDocument.make (nextId w)
      (Documents.newAgentId document) (Documents.newUserId document)
      (Documents.newFileName document) (Documents.newFileType document)
      (Documents.newContent document)
      (match Documents.newStatus document with Some s => s | None => pending end)
      (match Documents.newChunkCount document with
       | Some n => Some n
       | None => Some 0%Z
       end)
      (now w) (now w) in
  r = Some created
  /\ trainingDocuments w1 = trainingDocuments w ++ [created]
  /\ vectorEmbeddings w1 = vectorEmbeddings w
  /\ (hd None (rejections w1) = None ->
      exists rows,
        Documents.getTrainingDocumentsByAgentId (Documents.newAgentId document) w1
        = (Return rows, sent w1)
        /\ In created rows).
Proof.
  destruct w as [on documents configs chunks next time fates]. simpl.
  intros Hfresh.
  unfold Documents.createTrainingDocument. run_async.
  destruct on; simpl; [|discriminate].
  destruct (hd None fates); simpl; [discriminate|].
  destruct (hd None (tl fates)); simpl; [discriminate|].
  rewrite filter_app. simpl. rewrite Z.eqb_refl.
  rewrite (@filter_none _ (fun d => (TrainingDocument.id d =? next)%Z) documents)
    by (revert Hfresh; apply Forall_impl; intros d Hd; apply Z.eqb_neq; lia).
  simpl. intros [= <- <-]. simpl. repeat split.
  intros Hfate. unfold Documents.getTrainingDocumentsByAgentId. run_async.
  rewrite Hfate. simpl. eexists. split; [reflexivity|].
  unfold Documents.newestDocumentsFirst.
  apply stableSort_In. apply filter_In. split.
  - apply in_or_app. right. now left.
  - simpl. apply Z.eqb_refl.
Qed.

Lemma created_document_is_listed_witness :
  exists rows,
    Documents.getTrainingDocumentsByAgentId 3
      (snd (Documents.createTrainingDocument
              (Documents.makeInsert 3 7 (str "notes.md") (str "text/markdown")
                 (str "lazy dog") None None) uploaded))
    = (Return rows,
       sent (snd (Documents.createTrainingDocument
                    (Documents.makeInsert 3 7 (str "notes.md") (str "text/markdown")
                       (str "lazy dog") None None) uploaded)))
    /\ In (TrainingDocument.make 10 3 7 (str "notes.md") (str "text/markdown")
             (str "lazy dog") pending (Some 0%Z) 100 100) rows.
Proof.
  refine (proj2 (proj2 (proj2
    (@created_document_is_listed
       (Documents.makeInsert 3 7 (str "notes.md") (str "text/markdown")
          (str "lazy dog") None None)
       uploaded
       (snd (Documents.createTrainingDocument
               (Documents.makeInsert 3 7 (str "notes.md") (str "text/markdown")
                  (str "lazy dog") None None) uploaded))
       (Some (TrainingDocument.make 10 3 7 (str "notes.md") (str "text/markdown")
                (str "lazy dog") pending (Some 0%Z) 100 100))
       _ eq_refl))) eq_refl).
  repeat constructor.
Defined.

(** X21. Without a database handle the helpers split three ways and none touches
    the world: the creating helpers throw "Database not available", the
    reading helpers answer with the empty list, and the updating and deleting
    helpers return as if they had done their work. *)
Theorem helpers_offline (w : World) (agentId documentId userId : Z)
    (data : TrainingDocument.partial) (row : VectorEmbedding.insert)
    (document : Documents.insert) :
  available w = false ->
  getOrCreateRagConfig agentId w = (Throw DatabaseNotAvailable, w)
  /\ createVectorEmbedding row w = (Throw DatabaseNotAvailable, w)
  /\ Documents.createTrainingDocument document w = (Throw DatabaseNotAvailable, w)
  /\ getVectorEmbeddingsByAgentId agentId w = (Return [], w)
  /\ Documents.getTrainingDocumentsByAgentId agentId w = (Return [], w)
  /\ updateTrainingDocument documentId data w = (Return None, w)
  /\ deleteTrainingDocument documentId userId w = (Return tt, w)
  /\ deleteVectorEmbeddingsByDocumentId documentId w = (Return tt, w).
Proof.
  destruct w as [on documents configs chunks next time fates]. simpl.
  intros ->. repeat split.
Qed.

Lemma helpers_offline_witness :
  deleteVectorEmbeddingsByDocumentId 1 offline = (Return tt, offline).
Proof.
  exact (proj2 (proj2 (proj2 (proj2 (proj2 (proj2 (proj2
    (@helpers_offline offline 3 1 7
       (TrainingDocument.makePartial (Some failed) None)
       (VectorEmbedding.makeInsert 1 3 0 [] [] [])
       (Documents.makeInsert 3 7 [] [] [] None None)
       eq_refl)))))))).
Defined.

(* ----------------------------------------------------------------- *)
(** ** The prompt augmenter *)

(** X22. The augmented prompt is the template around the two strings, neither cut
    nor changed: its length is theirs plus the 113 code units of the
    template, each string can be read back from its place, and each one is
    determined by the output when the other is known.  The pair is not: a
    context that contains the text of the template's instruction gives the
    output of a shorter context with a longer prompt. *)
Theorem buildAugmentedPrompt_verbatim (originalPrompt context : jsString) :
  length (buildAugmentedPrompt originalPrompt context)
  = (113 + length context + length originalPrompt)%nat
  /\ firstn (length context)
       (skipn 49 (buildAugmentedPrompt originalPrompt context)) = context
  /\ skipn (113 + length context) (buildAugmentedPrompt originalPrompt context)
     = originalPrompt
  /\ (forall prompt',
        buildAugmentedPrompt prompt' context
        = buildAugmentedPrompt originalPrompt context ->
        prompt' = originalPrompt)
  /\ (forall context',
        buildAugmentedPrompt originalPrompt context'
        = buildAugmentedPrompt originalPrompt context ->
        context' = context)
  /\ forall injected,
       buildAugmentedPrompt originalPrompt (context ++ instruction ++ injected)
       = buildAugmentedPrompt (injected ++ instruction ++ originalPrompt) context.
Proof.
  unfold buildAugmentedPrompt.
  assert (Hheader : length header = 49%nat) by reflexivity.
  assert (Hinstruction : length instruction = 64%nat) by reflexivity.
  split; [rewrite !length_app, Hheader, Hinstruction; lia|].
  split.
  { rewrite skipn_app, Hheader.
    change (skipn 49 header) with (@nil codeUnit). simpl.
    rewrite firstn_app, Nat.sub_diag, firstn_all. simpl. now rewrite app_nil_r. }
  split.
  { rewrite !app_assoc, skipn_app.
    rewrite (skipn_all2 ((header ++ context) ++ instruction))
      by (rewrite !length_app, Hheader, Hinstruction; lia).
    rewrite !length_app, Hheader, Hinstruction.
    replace (113 + length context - (49 + length context + 64))%nat with 0%nat by lia.
    reflexivity. }
  split.
  { intros prompt' Hsame. rewrite !app_assoc in Hsame.
    now apply app_inv_head in Hsame. }
  split.
  { intros context' Hsame. apply app_inv_head in Hsame.
    rewrite !app_assoc in Hsame. apply app_inv_tail in Hsame.
    now apply app_inv_tail in Hsame. }
  intros injected. now rewrite <- !app_assoc.
Qed.

(* ----------------------------------------------------------------- *)
(** ** UI flows *)

(** X23. [deleteUiFlow] that returns has deleted every frame and every connection
    of the flow, before any check of the owner, and has left the frames and
    connections of other flows alone; the flow record itself goes only when
    it belongs to the given user.  Called with another user's id it empties
    that user's flow and keeps its record. *)
Theorem deleteUiFlow_cascade (id userId : Z) (w w' : Canvas.CanvasWorld) :
  Canvas.reachable w = true ->
  Canvas.deleteUiFlow id userId w = (Return tt, w') ->
  (forall f, In f (Canvas.uiFrames w')
             <-> In f (Canvas.uiFrames w) /\ UiFrame.flowId f <> id)
  /\ (forall c, In c (Canvas.uiConnections w')
                <-> In c (Canvas.uiConnections w) /\ UiConnection.flowId c <> id)
  /\ (forall flow, In flow (Canvas.uiFlows w')
                   <-> In flow (Canvas.uiFlows w)
                       /\ ~ (UiFlow.id flow = id /\ UiFlow.userId flow = userId)).
Proof.
  destruct w as [on flows frames connections fates]. simpl. intros ->.
  unfold Canvas.deleteUiFlow, Canvas.andThen, Canvas.statement. simpl.
  destruct (hd None fates); simpl; [discriminate|].
  destruct (hd None (tl fates)); simpl; [discriminate|].
  destruct (hd None (tl (tl fates))); simpl; [discriminate|].
  intros [= <-]. simpl. split; [|split].
  - intros f. rewrite filter_In, negb_true_iff, Z.eqb_neq. tauto.
  - intros c. rewrite filter_In, negb_true_iff, Z.eqb_neq. tauto.
  - intros flow. rewrite filter_In, negb_true_iff, andb_false_iff, !Z.eqb_neq.
    split; intros [Hflow Hnot]; (split; [exact Hflow|]).
    + intros [Hid Huser]. destruct Hnot; contradiction.
    + destruct (Z.eq_dec (UiFlow.id flow) id) as [Hid|Hne]; [right|now left].
      intros Huser. apply Hnot. auto.
Qed.

Lemma deleteUiFlow_cascade_witness :
  In (UiFlow.make 1 7 None (str "onboarding") None 50)
    (Canvas.uiFlows
       (snd (Canvas.deleteUiFlow 1 8
               (Canvas.makeCanvas true
                  [UiFlow.make 1 7 None (str "onboarding") None 50]
                  [UiFrame.make 2 1 (str "f1") (str "Welcome") None None]
                  [] []))))
  /\ Canvas.uiFrames
       (snd (Canvas.deleteUiFlow 1 8
               (Canvas.makeCanvas true
                  [UiFlow.make 1 7 None (str "onboarding") None 50]
                  [UiFrame.make 2 1 (str "f1") (str "Welcome") None None]
                  [] []))) = [].
Proof.
  split; [|reflexivity].
  refine (proj2 (proj2 (proj2
    (@deleteUiFlow_cascade 1 8
       (Canvas.makeCanvas true
          [UiFlow.make 1 7 None (str "onboarding") None 50]
          [UiFrame.make 2 1 (str "f1") (str "Welcome") None None]
          [] [])
       _ eq_refl eq_refl)) (UiFlow.make 1 7 None (str "onboarding") None 50)) _).
  split; [now left|]. intros [_ Huser]. discriminate.
Defined.

(** X24. [deleteUiFlow] sends three separate deletions: when the second is
    rejected it throws with the frames of the flow already gone and the
    connections and the flow record still there. *)
Theorem deleteUiFlow_not_atomic (id userId : Z) (w : Canvas.CanvasWorld)
    (e : Error) :
  Canvas.reachable w = true ->
  hd None (Canvas.fates w) = None ->
  hd None (tl (Canvas.fates w)) = Some e ->
  fst (Canvas.deleteUiFlow id userId w) = Throw e
  /\ Canvas.uiFrames (snd (Canvas.deleteUiFlow id userId w))
     = filter (fun f => negb (UiFrame.flowId f =? id)%Z) (Canvas.uiFrames w)
  /\ Canvas.uiConnections (snd (Canvas.deleteUiFlow id userId w))
     = Canvas.uiConnections w
  /\ Canvas.uiFlows (snd (Canvas.deleteUiFlow id userId w)) = Canvas.uiFlows w.
Proof.
  destruct w as [on flows frames connections fates]. simpl.
  intros -> Hfirst Hsecond.
  unfold Canvas.deleteUiFlow, Canvas.andThen, Canvas.statement. simpl.
  rewrite Hfirst. simpl. rewrite Hsecond. simpl. repeat split.
Qed.

Lemma deleteUiFlow_not_atomic_witness :
  fst (Canvas.deleteUiFlow 1 7
         (Canvas.makeCanvas true
            [UiFlow.make 1 7 None (str "onboarding") None 50]
            [UiFrame.make 2 1 (str "f1") (str "Welcome") None None]
            [UiConnection.make 3 1 (str "c1") (str "f1") (str "f1")]
            [None; Some (QueryFailed 2006)]))
  = Throw (QueryFailed 2006).
Proof.
  exact (proj1 (@deleteUiFlow_not_atomic 1 7
                  (Canvas.makeCanvas true
                     [UiFlow.make 1 7 None (str "onboarding") None 50]
                     [UiFrame.make 2 1 (str "f1") (str "Welcome") None None]
                     [UiConnection.make 3 1 (str "c1") (str "f1") (str "f1")]
                     [None; Some (QueryFailed 2006)])
                  (QueryFailed 2006) eq_refl eq_refl eq_refl)).
Defined.

(* ----------------------------------------------------------------- *)
(** ** The indexer: no rollback *)

Lemma createVectorEmbedding_effect (row : VectorEmbedding.insert) (w : World) :
  now (snd (createVectorEmbedding row w)) = now w
  /\ ((vectorEmbeddings (snd (createVectorEmbedding row w)) = vectorEmbeddings w
       /\ nextId (snd (createVectorEmbedding row w)) = nextId w
       /\ exists e, fst (createVectorEmbedding row w) = Throw e)
      \/ (vectorEmbeddings (snd (createVectorEmbedding row w))
          = vectorEmbeddings w
            ++ [VectorEmbedding.make (nextId w)
                  (VectorEmbedding.newDocumentId row)
                  (VectorEmbedding.newAgentId row)
                  (VectorEmbedding.newChunkIndex row)
                  (VectorEmbedding.newContent row)
                  (Some (VectorEmbedding.newEmbedding row))
                  (VectorEmbedding.newMetadata row) (now w)]
          /\ nextId (snd (createVectorEmbedding row w)) = (nextId w + 1)%Z)).
Proof.
  destruct w as [on documents configs chunks next time fates].
  unfold createVectorEmbedding. run_async.
  destruct on; simpl; [|split; [reflexivity|left; repeat split; eexists; reflexivity]].
  destruct (hd None fates); simpl;
    [split; [reflexivity|left; repeat split; eexists; reflexivity]|].
  destruct (hd None (tl fates)); simpl; split; try reflexivity; right; split;
    reflexivity.
Qed.

Lemma embedChunks_prefix (toLowerCase : jsString -> jsString)
    (documentId agentId : Z) (chunks : list jsString) (i : Z) (w : World) :
  exists k,
    (k <= length chunks)%nat
    /\ vectorEmbeddings (snd (embedChunks toLowerCase documentId agentId i chunks w))
       = vectorEmbeddings w
         ++ chunkRows toLowerCase documentId agentId (nextId w) i (now w)
              (firstn k chunks)
    /\ now (snd (embedChunks toLowerCase documentId agentId i chunks w)) = now w.
Proof.
  revert i w. induction chunks as [|chunk rest IH]; intros i w; simpl.
  - exists 0%nat. simpl. rewrite app_nil_r. auto.
  - unfold bind.
    destruct (createVectorEmbedding_effect
                (VectorEmbedding.makeInsert documentId agentId i chunk
                   (createSimpleEmbedding toLowerCase chunk)
                   [("chunkSize"%string, Z.of_nat (length chunk))]) w)
      as [Hnow [(Hrows & Hnext & e & Hthrow)|(Hrows & Hnext)]].
    + destruct (createVectorEmbedding _ w) as [[r|e'] w1]; simpl in *;
        [discriminate|].
      exists 0%nat. simpl. rewrite app_nil_r. repeat split; [lia|assumption..].
    + destruct (createVectorEmbedding _ w) as [[r|e'] w1]; simpl in *.
      * destruct (IH (i + 1)%Z w1) as (k & Hk & Hrows' & Hnow').
        exists (S k). simpl. rewrite Hrows', Hrows, Hnext, Hnow', Hnow.
        rewrite <- app_assoc. repeat split. lia.
      * exists 1%nat. simpl. rewrite Hrows. repeat split; [lia|assumption].
Qed.

(** X25. There is no rollback: after any run, returning or throwing, the chunk
    table is what it was followed by the rows of the first [k] chunks of the
    content, for some [k]; a run that throws can leave [k > 0] of them, as
    in the world where the second insert is rejected: the run throws, the
    document reads [failed], and its first chunk stays stored. *)
Theorem processDocumentForRAG_no_rollback (toLowerCase : jsString -> jsString)
    (documentId agentId : Z) (content : jsString) (w : World) :
  (vectorEmbeddings
     (snd (processDocumentForRAG toLowerCase documentId agentId content w))
   = vectorEmbeddings w
   \/ exists config w1 firstId k,
        getOrCreateRagConfig agentId w = (Return (Some config), w1)
        /\ vectorEmbeddings
             (snd (processDocumentForRAG toLowerCase documentId agentId content w))
           = vectorEmbeddings w
             ++ chunkRows toLowerCase documentId agentId firstId 0 (now w)
                  (firstn k
                     (chunkText content
                        (orDefault (RagConfiguration.chunkSize config) 512)
                        (orDefault (RagConfiguration.chunkOverlap config) 50))))
  /\ (let run := processDocumentForRAG asciiToLowerCase 1 3 fox secondChunkRejected in
      fst run = Throw (QueryFailed 1205)
      /\ map TrainingDocument.status (trainingDocuments (snd run)) = [failed]
      /\ map VectorEmbedding.content (vectorEmbeddings (snd run))
         = [str "The quick brown fox."]).
Proof.
  split; [|vm_compute; repeat split; reflexivity].
  assert (Hfailure : forall e w0,
             vectorEmbeddings (snd (recordFailure documentId e w0))
             = vectorEmbeddings w0)
    by (intros e w0; apply recordFailure_frame).
  destruct (getOrCreateRagConfig_frame agentId w) as (Hrows1 & _).
  destruct (getOrCreateRagConfig_counters agentId w) as [Hnow1 _].
  unfold processDocumentForRAG, tryCatch, bind, defined.
  destruct (getOrCreateRagConfig agentId w) as [[[config|]|e] w1] eqn:Hconfig;
    simpl in Hrows1, Hnow1; unfold ret, throw;
    try (left; rewrite Hfailure; exact Hrows1).
  destruct (updateTrainingDocument_frame documentId
              (TrainingDocument.makePartial (Some processing) None) w1)
    as [Hrows2 _].
  destruct (updateTrainingDocument_counters documentId
              (TrainingDocument.makePartial (Some processing) None) w1)
    as [Hnow2 _].
  destruct (updateTrainingDocument _ _ w1) as [[row|e] w2]; simpl in *;
    [|left; rewrite Hfailure; congruence].
  right. exists config, w1, (nextId w2).
  unfold indexChunks, bind.
  set (chunks := chunkText content _ _).
  destruct (embedChunks_prefix toLowerCase documentId agentId chunks 0 w2)
    as (k & _ & Hrows3 & _).
  exists k. split; [reflexivity|].
  destruct (embedChunks toLowerCase documentId agentId 0 chunks w2)
    as [[[]|e] w3]; simpl in Hrows3.
  - match goal with
    | |- context [updateTrainingDocument documentId ?data w3] =>
        destruct (updateTrainingDocument_frame documentId data w3) as [Hrows4 _];
        destruct (updateTrainingDocument documentId data w3) as [[row'|e] w4]
    end; simpl in *.
    + rewrite Hrows4, Hrows3, Hrows2, Hrows1. do 2 f_equal. congruence.
    + rewrite Hfailure, Hrows4, Hrows3, Hrows2, Hrows1. do 2 f_equal. congruence.
  - rewrite Hfailure, Hrows3, Hrows2, Hrows1. do 2 f_equal. congruence.
Qed.
